(** * A personal finance ledger: [Entry], [Ledger] and their persistence

    Shallow embedding of [app.py].  Python objects become records, the
    module-level side effects (the data file, [uuid4], the clock, [print])
    become an explicit world that every method threads through a state and
    exception monad.

    Typing.  The model follows the annotations of [Entry.__init__]
    ([title], [category], [kind], [note] are [str], [amount] is a number and
    is stored as a [float], [date] and [id] are [Optional[str]]).  Strings are
    Rocq strings holding the text in UTF-8, compared character by
    character.  Values of other Python types in those positions are outside
    the model.

    Library functions whose results the model cannot compute are arguments
    of the functions that call them: [str.lower] (Unicode-aware, so not a
    map over characters), [str] on numbers, and Flask's [send_file]. *)

From Stdlib Require Import ZArith Ascii.
From Stdlib Require Import Floats.PrimFloat Floats.SpecFloat Floats.FloatOps.
From stdpp Require Import base strings list gmap sorting.

Open Scope string_scope.
Open Scope list_scope.

(** ** Python values *)

(** A Python number as [json] produces it or as arithmetic returns it. *)
Inductive number :=
  | NInt (z : Z)
  | NFloat (f : float).

(** A cell handed to the [csv] writer. *)
Inductive value :=
  | VStr (s : string)
  | VNum (n : number).

Inductive exn :=
  | OverflowError
  | ValueError
  | OSError
  | UnicodeDecodeError
  | JSONDecodeError
  | OtherException (name : string).

Inductive result (A : Type) :=
  | Ok (a : A)
  | Raise (ex : exn).
Arguments Ok {A} a.
Arguments Raise {A} ex.

#[global] Instance result_ret : MRet result := λ A a, Ok a.
#[global] Instance result_bind : MBind result := λ A B k r,
  match r with
  | Ok a => k a
  | Raise ex => Raise ex
  end.

(** [float(z)] for a Python [int]: the nearest double, ties to even;
    [OverflowError] when that is not finite. *)
Definition float_of_int (z : Z) : result float :=
  match binary_normalize prec emax z 0 false with
  | S754_infinity _ => Raise OverflowError
  | S754_nan => Raise OverflowError
  | s => Ok (SF2Prim s)
  end.

(** [float(v)] for a number. *)
Definition py_float (v : number) : result float :=
  match v with
  | NFloat f => Ok f
  | NInt z => float_of_int z
  end.

(** [a + b] and [a - b] on numbers: [int] with [int] stays [int], anything
    with a [float] converts the [int] operand first. *)
Definition num_add (a b : number) : result number :=
  match a, b with
  | NInt x, NInt y => Ok (NInt (x + y))
  | _, _ => f ← py_float a; g ← py_float b; Ok (NFloat (f + g))
  end.

Definition num_sub (a b : number) : result number :=
  match a, b with
  | NInt x, NInt y => Ok (NInt (x - y))
  | _, _ => f ← py_float a; g ← py_float b; Ok (NFloat (f - g))
  end.

(** The builtin [sum(iterable)]: [acc = 0], then [acc = acc + x] for each
    item, left to right.  (CPython from 3.12 on also compensates the
    rounding errors of a sum of floats; the model is the plain
    accumulation.) *)
Fixpoint sum_from (acc : number) (xs : list float) : result number :=
  match xs with
  | [] => Ok acc
  | x :: xs' => acc' ← num_add acc (NFloat x); sum_from acc' xs'
  end.

Definition py_sum (xs : list float) : result number := sum_from (NInt 0) xs.

(** Truth value of a [str]: false exactly for the empty string. *)
Definition truthy (s : string) : bool := negb (s =? "").

(** Lower-casing of ASCII text: [A]-[Z] become [a]-[z], every other
    character is kept.  This is what [str.lower] returns on a string of
    ASCII characters only ([is_ascii]); on other text [str.lower] is not
    this function.  It stands in for [str.lower] where an example has to
    run. *)
Definition lower_ascii (c : ascii) : ascii :=
  let n := N_of_ascii c in
  if ((65 <=? n) && (n <=? 90))%N then ascii_of_N (n + 32) else c.

Fixpoint ascii_lower (s : string) : string :=
  match s with
  | EmptyString => EmptyString
  | String c s' => String (lower_ascii c) (ascii_lower s')
  end.

Fixpoint is_ascii (s : string) : bool :=
  match s with
  | EmptyString => true
  | String c s' => (N_of_ascii c <? 128)%N && is_ascii s'
  end.

(** [kw in s] on strings: [kw] occurs in [s] as a contiguous substring. *)
Fixpoint str_in (kw s : string) : bool :=
  String.prefix kw s ||
  match s with
  | EmptyString => false
  | String _ s' => str_in kw s'
  end.

(** The builtin [sorted(l, key=key, reverse=reverse)]: a stable sort on
    string keys; with [reverse] the keys descend and items with equal keys
    still keep their original order.  A stable sort has one possible
    result, so the algorithm does not matter; this one inserts each item
    before the sorted rest.  [goes_before reverse k1 k2] says that a key
    [k1] must come strictly before [k2]. *)
Definition goes_before (reverse : bool) (k1 k2 : string) : bool :=
  if reverse then String.ltb k2 k1 else String.ltb k1 k2.

Fixpoint sorted_insert {A} (key : A → string) (reverse : bool)
    (x : A) (l : list A) : list A :=
  match l with
  | [] => [x]
  | y :: l' =>
    if goes_before reverse (key y) (key x)
    then y :: sorted_insert key reverse x l'
    else x :: y :: l'
  end.

Fixpoint sorted {A} (key : A → string) (reverse : bool) (l : list A) : list A :=
  match l with
  | [] => []
  | x :: l' => sorted_insert key reverse x (sorted key reverse l')
  end.

(** ** The text of a CSV file *)

Definition COMMA : ascii := "044"%char.
Definition QUOTE : ascii := "034"%char.
Definition CR : ascii := "013"%char.
Definition LF : ascii := "010"%char.
Definition CRLF : string := String CR (String LF EmptyString).

(** The [csv] writer in its default dialect quotes a field that holds the
    delimiter, the quote character or a character of the line terminator,
    and doubles the quote characters inside it. *)
Definition csv_special (c : ascii) : bool :=
  Ascii.eqb c COMMA || Ascii.eqb c QUOTE || Ascii.eqb c CR || Ascii.eqb c LF.

Fixpoint has_special (s : string) : bool :=
  match s with
  | EmptyString => false
  | String c s' => csv_special c || has_special s'
  end.

Fixpoint double_quotes (s : string) : string :=
  match s with
  | EmptyString => EmptyString
  | String c s' =>
    if Ascii.eqb c QUOTE then String QUOTE (String QUOTE (double_quotes s'))
    else String c (double_quotes s')
  end.

Definition csv_field (s : string) : string :=
  if has_special s then String QUOTE (double_quotes s +:+ String QUOTE EmptyString)
  else s.

(** The text of a cell: a string as it is, a number through [str], which
    is the argument [num_text]. *)
Definition cell_text (num_text : number → string) (v : value) : string :=
  match v with
  | VStr s => s
  | VNum n => num_text n
  end.

(** One row as [writer.writerow] writes it: the fields joined by commas,
    then the line terminator; a row of one empty field is written as two
    quote characters. *)
Definition csv_record (num_text : number → string) (row : list value) : string :=
  let cells := cell_text num_text <$> row in
  (if bool_decide (cells = [EmptyString]) then String QUOTE (String QUOTE EmptyString)
   else String.concat "," (csv_field <$> cells))
  +:+ CRLF.

(** The text of a CSV file to which these rows were written. *)
Definition csv_text (num_text : number → string) (rows : list (list value)) : string :=
  foldr (λ row rest, csv_record num_text row +:+ rest) EmptyString rows.

(** The number of lines of a text in which every line is ended: a line
    ends at a line feed, at a carriage return, or at the two in a row. *)
Fixpoint line_count (s : string) : nat :=
  match s with
  | EmptyString => 0
  | String c s' =>
    if Ascii.eqb c LF then S (line_count s')
    else if Ascii.eqb c CR then
      match s' with
      | String c' _ => if Ascii.eqb c' LF then line_count s' else S (line_count s')
      | EmptyString => 1
      end
    else line_count s'
  end.

(** A string without a line end in it. *)
Fixpoint single_line (s : string) : bool :=
  match s with
  | EmptyString => true
  | String c s' => negb (Ascii.eqb c CR || Ascii.eqb c LF) && single_line s'
  end.

(** ** Records on disk and the world *)

(** The mapping [Entry.to_dict] returns and [Entry.from_dict] reads: each of
    the seven keys is absent ([None]) or holds a value of its type.  For
    ["id"] and ["date"], [None] also stands for a JSON [null]. *)
Record EntryDict := mkDict {
  d_id : option string;
  d_title : option string;
  d_amount : option number;
  d_category : option string;
  d_kind : option string;
  d_note : option string;
  d_date : option string }.

(** [d.get(k)] as the csv writer sees it. *)
Definition dict_get (d : EntryDict) (k : string) : option value :=
  if k =? "id" then VStr <$> d_id d
  else if k =? "title" then VStr <$> d_title d
  else if k =? "amount" then VNum <$> d_amount d
  else if k =? "category" then VStr <$> d_category d
  else if k =? "kind" then VStr <$> d_kind d
  else if k =? "note" then VStr <$> d_note d
  else if k =? "date" then VStr <$> d_date d
  else None.

Definition dict_keys (d : EntryDict) : list string :=
  List.filter (λ k, bool_decide (is_Some (dict_get d k)))
    ["id"; "title"; "amount"; "category"; "kind"; "note"; "date"].

(** What a path holds: a JSON array of entry records, a CSV file, or
    something on which opening, decoding or [json.load] raises [ex].  A CSV
    file is kept as the rows written to it; its text is the [csv_text] of
    the rows. *)
Inductive file :=
  | JsonDoc (records : list EntryDict)
  | CsvDoc (rows : list (list value))
  | Unreadable (ex : exn).

Inductive event :=
  | EvWrite (path : string)
  | EvPrint (ex : exn).

(** Everything outside the Python heap.  [uuids n] is what the [n]-th call
    of [str(uuid4())] returns, [today] is
    [datetime.now().date().isoformat()], [trace] lists the files opened for
    writing and the exceptions printed, oldest first. *)
Record World := mkWorld {
  files : gmap string file;
  uuids : nat → string;
  uuid_calls : nat;
  today : string;
  trace : list event }.

(** ** State and exceptions *)

Definition SE (S A : Type) : Type := S → S * result A.

#[global] Instance SE_ret {S} : MRet (SE S) := λ A a s, (s, Ok a).
#[global] Instance SE_bind {S} : MBind (SE S) := λ A B k m s,
  match m s with
  | (s', Ok a) => k a s'
  | (s', Raise ex) => (s', Raise ex)
  end.

Definition raise {S A} (ex : exn) : SE S A := λ s, (s, Raise ex).
Definition gets {S A} (f : S → A) : SE S A := λ s, (s, Ok (f s)).
Definition modify {S} (f : S → S) : SE S unit := λ s, (f s, Ok tt).
Definition lift_result {S A} (r : result A) : SE S A := λ s, (s, r).

(** [try: body  except Exception as ex: handler ex] *)
Definition try_except {S A} (body : SE S A) (handler : exn → SE S A) : SE S A :=
  λ s, match body s with
       | (s', Ok a) => (s', Ok a)
       | (s', Raise ex) => handler ex s'
       end.

(** A comprehension or [for] loop whose body has effects. *)
Fixpoint for_each {S A B} (body : A → SE S B) (l : list A) : SE S (list B) :=
  match l with
  | [] => mret []
  | x :: l' => y ← body x; ys ← for_each body l'; mret (y :: ys)
  end.

Definition DATA_FILE : string := "data.json".

Definition uuid4 : SE World string := λ w,
  (mkWorld (files w) (uuids w) (S (uuid_calls w)) (today w) (trace w),
   Ok (uuids w (uuid_calls w))).

Definition today_isoformat : SE World string := gets today.

Definition path_exists (path : string) : SE World bool :=
  gets (λ w, bool_decide (is_Some (files w !! path))).

(** [open(path, "w")] followed by writing the whole content. *)
Definition write_file (path : string) (f : file) : SE World unit :=
  modify (λ w, mkWorld (<[path := f]> (files w)) (uuids w) (uuid_calls w)
                       (today w) (trace w ++ [EvWrite path])).

(** [writer.writerow(row)] on a file opened for writing. *)
Definition append_row (path : string) (row : list value) : SE World unit :=
  modify (λ w,
    match files w !! path with
    | Some (CsvDoc rows) =>
      mkWorld (<[path := CsvDoc (rows ++ [row])]> (files w)) (uuids w)
              (uuid_calls w) (today w) (trace w)
    | _ => w
    end).

(** [open(path, "r")] and [json.load]. *)
Definition read_json (path : string) : SE World (list EntryDict) := λ w,
  match files w !! path with
  | Some (JsonDoc records) => (w, Ok records)
  | Some (CsvDoc _) => (w, Raise JSONDecodeError)
  | Some (Unreadable ex) => (w, Raise ex)
  | None => (w, Raise OSError)
  end.

Definition print (ex : exn) : SE World unit :=
  modify (λ w, mkWorld (files w) (uuids w) (uuid_calls w) (today w)
                       (trace w ++ [EvPrint ex])).

(** [x or y] where [x] is an optional string; [y] runs only when [x] is
    [None] or empty. *)
Definition py_or (x : option string) (y : SE World string) : SE World string :=
  match x with
  | Some s => if truthy s then mret s else y
  | None => y
  end.

(** ** class Entry *)

Module Entry.

Record t := mk {
  id : string;
  title : string;
  amount : float;
  category : string;
  kind : string;
  note : string;
  date : string }.

(** [Entry.__init__] *)
Definition init (title : string) (amount : number) (category kind : string)
    (note : string) (date : option string) (id : option string) : SE World t :=
  id' ← py_or id uuid4;
  amount' ← lift_result (py_float amount);
  date' ← py_or date today_isoformat;
  mret (mk id' title amount' category kind note date').

Definition to_dict (self : t) : EntryDict :=
  {| d_id := Some (id self);
     d_title := Some (title self);
     d_amount := Some (NFloat (amount self));
     d_category := Some (category self);
     d_kind := Some (kind self);
     d_note := Some (note self);
     d_date := Some (date self) |}.

Definition from_dict (d : EntryDict) : SE World t :=
  init (default "" (d_title d))
       (default (NInt 0) (d_amount d))
       (default "" (d_category d))
       (default "expense" (d_kind d))
       (default "" (d_note d))
       (d_date d)
       (d_id d).

End Entry.

(** ** class Ledger *)

Module Ledger.

(** A [Ledger] object together with the world it runs in.  The entries
    of the list are distinct objects, as [api_create] and [load] make
    them. *)
Record state := mk {
  entries : list Entry.t;
  world : World }.

Definition L (A : Type) : Type := SE state A.

Definition in_world {A} (m : SE World A) : L A := λ st,
  let '(w', r) := m (world st) in (mk (entries st) w', r).

Definition set_entries (es : list Entry.t) : L unit :=
  modify (λ st, mk es (world st)).

Definition save : L unit :=
  es ← gets entries;
  in_world (write_file DATA_FILE (JsonDoc (Entry.to_dict <$> es))).

Definition load : L unit :=
  found ← in_world (path_exists DATA_FILE);
  if (found : bool) then
    try_except
      (data ← in_world (read_json DATA_FILE);
       es ← in_world (for_each Entry.from_dict data);
       set_entries es)
      (λ ex, in_world (print ex);; set_entries [])
  else set_entries [].

(** [Ledger.__init__] *)
Definition init : L unit :=
  set_entries [];; load.

Definition add (entry : Entry.t) : L unit :=
  es ← gets entries;
  set_entries (es ++ [entry]);;
  save.

Definition delete (entry_id : string) : L bool :=
  before ← gets (λ st, length (entries st));
  es ← gets entries;
  set_entries (List.filter (λ e, negb (Entry.id e =? entry_id)) es);;
  after ← gets (λ st, length (entries st));
  let changed := (after <? before)%nat in
  (if changed then save else mret tt);;
  mret changed.

(** One keyword argument of [update].  The value is [None] or has the
    type of the attribute; [kw_other] is a keyword for which [hasattr] is
    false.  [update] only ever passes an amount to [float]: an amount that
    [float] converts is the number it converts to ([kw_amount]), any other
    amount is known by the exception [float] raises on it
    ([kw_amount_raises]: [ValueError] for a string that is no number,
    [TypeError] for a list or an object).  Keywords that name a method of
    [Entry], which [setattr] would shadow, are outside the model. *)
Inductive kwarg :=
  | kw_id (v : option string)
  | kw_title (v : option string)
  | kw_amount (v : option number)
  | kw_amount_raises (ex : exn)
  | kw_category (v : option string)
  | kw_kind (v : option string)
  | kw_note (v : option string)
  | kw_date (v : option string)
  | kw_other (name : string).

(** The body of the loop over [kwargs.items()]: one [setattr], or nothing
    when the value is [None] or the name is not an attribute. *)
Definition set_field (e : Entry.t) (kw : kwarg) : result Entry.t :=
  let '(Entry.mk i t a c k n d) := e in
  match kw with
  | kw_id (Some v) => Ok (Entry.mk v t a c k n d)
  | kw_title (Some v) => Ok (Entry.mk i v a c k n d)
  | kw_amount (Some v) => f ← py_float v; Ok (Entry.mk i t f c k n d)
  | kw_amount_raises ex => Raise ex
  | kw_category (Some v) => Ok (Entry.mk i t a v k n d)
  | kw_kind (Some v) => Ok (Entry.mk i t a c v n d)
  | kw_note (Some v) => Ok (Entry.mk i t a c k v d)
  | kw_date (Some v) => Ok (Entry.mk i t a c k n v)
  | _ => Ok e
  end.

(** The whole loop: the entry as the loop left it, and the exception
    that stopped it, if any. *)
Fixpoint set_fields (e : Entry.t) (kwargs : list kwarg) : Entry.t * option exn :=
  match kwargs with
  | [] => (e, None)
  | kw :: kwargs' =>
    match set_field e kw with
    | Ok e' => set_fields e' kwargs'
    | Raise ex => (e, Some ex)
    end
  end.

(** The loop [for e in self.entries] of [update]; [seen] are the entries
    already passed.  The matching entry is changed in place. *)
Fixpoint update_from (seen rest : list Entry.t) (entry_id : string)
    (kwargs : list kwarg) : L (option Entry.t) :=
  match rest with
  | [] => mret None
  | e :: rest' =>
    if Entry.id e =? entry_id then
      let '(e', failed) := set_fields e kwargs in
      set_entries (seen ++ e' :: rest');;
      match failed with
      | Some ex => raise ex
      | None => save;; mret (Some e')
      end
    else update_from (seen ++ [e]) rest' entry_id kwargs
  end.

Definition update (entry_id : string) (kwargs : list kwarg) : L (option Entry.t) :=
  es ← gets entries;
  update_from [] es entry_id kwargs.

(** [lower] is [str.lower]. *)
Definition search (lower : string → string) (keyword : string) : L (list Entry.t) :=
  let kw := lower keyword in
  es ← gets entries;
  mret (List.filter
          (λ e, str_in kw (lower (Entry.title e))
                || str_in kw (lower (Entry.category e))
                || str_in kw (lower (Entry.note e)))
          es).

(** The sort key [x.date or ""]. *)
Definition date_key (x : Entry.t) : string :=
  if truthy (Entry.date x) then Entry.date x else "".

Definition list_all : L (list Entry.t) :=
  es ← gets entries;
  mret (sorted date_key true es).

Record Balance := mkBalance {
  income : number;
  expense : number;
  balance : number }.

Definition total_balance : L Balance :=
  es ← gets entries;
  income ← lift_result
    (py_sum (Entry.amount <$> List.filter (λ e, Entry.kind e =? "income") es));
  expense ← lift_result
    (py_sum (Entry.amount <$> List.filter (λ e, Entry.kind e =? "expense") es));
  balance ← lift_result (num_sub income expense);
  mret (mkBalance income expense balance).

Definition fieldnames : list string :=
  ["id"; "date"; "title"; "category"; "kind"; "amount"; "note"].

(** [csv.DictWriter._dict_to_list]: keys outside [fieldnames] raise, a
    missing key yields the empty string. *)
Definition dict_to_list (names : list string) (rowdict : EntryDict)
    : result (list value) :=
  if forallb (λ k, bool_decide (k ∈ names)) (dict_keys rowdict)
  then Ok ((λ k, default (VStr "") (dict_get rowdict k)) <$> names)
  else Raise ValueError.

(** [csv.DictWriter.writeheader] and [csv.DictWriter.writerow] on the
    file opened at [path]. *)
Definition writeheader (path : string) (names : list string) : L unit :=
  in_world (append_row path (VStr <$> names)).

Definition writerow (path : string) (names : list string)
    (rowdict : EntryDict) : L unit :=
  row ← lift_result (dict_to_list names rowdict);
  in_world (append_row path row).

Definition export_csv (csv_path : string) : L string :=
  in_world (write_file csv_path (CsvDoc []));;
  writeheader csv_path fieldnames;;
  es ← list_all;
  for_each (λ e, let row := Entry.to_dict e in
                 writerow csv_path fieldnames row) es;;
  mret csv_path.

(** The keyword arguments [api_update] passes, in its order. *)
Definition api_update_kwargs (data : EntryDict) : list kwarg :=
  [ kw_title (d_title data);
    kw_amount (d_amount data);
    kw_category (d_category data);
    kw_kind (d_kind data);
    kw_note (d_note data);
    kw_date (d_date data) ].

(** The three mutating calls, for runs of the ledger. *)
Inductive call :=
  | Add (entry : Entry.t)
  | Delete (entry_id : string)
  | Update (entry_id : string) (kwargs : list kwarg).

Definition perform (c : call) : L unit :=
  match c with
  | Add entry => add entry
  | Delete entry_id => delete entry_id;; mret tt
  | Update entry_id kwargs => update entry_id kwargs;; mret tt
  end.

(** The records the data file holds; none when it is absent or not a
    JSON array of records. *)
Definition persisted (st : state) : list EntryDict :=
  match files (world st) !! DATA_FILE with
  | Some (JsonDoc records) => records
  | _ => []
  end.

Definition in_sync (st : state) : Prop :=
  persisted st = Entry.to_dict <$> entries st.

(** [Ledger()] in a world [w]. *)
Definition fresh (w : World) : state := (init (mk [] w)).1.

End Ledger.

(** ** The routes *)

(** What a view function returns: a body and the HTTP status ([200] when
    the function returns the body alone). *)
Inductive body :=
  | JsonEntries (records : list EntryDict)
  | JsonEntry (record : EntryDict)
  | JsonError (message : string)
  | JsonStats (totals : Ledger.Balance)
  | Text (s : string)
  | SendFile (path : string).

Record response := mkResponse {
  resp_body : body;
  resp_status : nat }.

(** [data[k]] on a key of the record. *)
Definition dict_item {A} (field : option A) : result A :=
  match field with
  | Some v => Ok v
  | None => Raise (OtherException "KeyError")
  end.

(** [GET /api/entries]; [q] is the query parameter, if any, and [lower]
    is [str.lower]. *)
Definition api_list (lower : string → string) (q : option string)
    : Ledger.L response :=
  let q := default "" q in
  results ← (if truthy q then Ledger.search lower q else Ledger.list_all);
  mret (mkResponse (JsonEntries (Entry.to_dict <$> results)) 200).

(** [GET /api/entries/<entry_id>] *)
Definition api_get (entry_id : string) : Ledger.L response :=
  es ← gets Ledger.entries;
  match List.find (λ e, Entry.id e =? entry_id) es with
  | Some e => mret (mkResponse (JsonEntry (Entry.to_dict e)) 200)
  | None => mret (mkResponse (Text "Not found") 404)
  end.

Definition required : list string := ["title"; "amount"; "category"; "kind"].

(** [POST /api/entries]; [data] is the JSON body. *)
Definition api_create (data : EntryDict) : Ledger.L response :=
  match List.find (λ r, negb (bool_decide (is_Some (dict_get data r)))) required with
  | Some r => mret (mkResponse (JsonError ("Missing field " +:+ r)) 400)
  | None =>
    title ← lift_result (dict_item (d_title data));
    amount ← lift_result (dict_item (d_amount data));
    category ← lift_result (dict_item (d_category data));
    kind ← lift_result (dict_item (d_kind data));
    entry ← Ledger.in_world
      (Entry.init title amount category kind
                  (default "" (d_note data)) (d_date data) None);
    Ledger.add entry;;
    mret (mkResponse (JsonEntry (Entry.to_dict entry)) 201)
  end.

(** [PUT /api/entries/<entry_id>] *)
Definition api_update (entry_id : string) (data : EntryDict) : Ledger.L response :=
  e ← Ledger.update entry_id (Ledger.api_update_kwargs data);
  match e with
  | Some e => mret (mkResponse (JsonEntry (Entry.to_dict e)) 200)
  | None => mret (mkResponse (Text "Not found") 404)
  end.

(** [DELETE /api/entries/<entry_id>] *)
Definition api_delete (entry_id : string) : Ledger.L response :=
  ok ← Ledger.delete entry_id;
  if (ok : bool) then mret (mkResponse (Text "") 204)
  else mret (mkResponse (Text "Not found") 404).

(** [GET /api/stats] *)
Definition api_stats : Ledger.L response :=
  totals ← Ledger.total_balance;
  mret (mkResponse (JsonStats totals) 200).

(** [GET /api/export]; [export_csv] is called with its default path.
    [send_file] is Flask's helper: from the path and the files it finds it
    builds the response or raises; it writes nothing.  Where it looks for
    the path (under the application's root) and which status it answers
    with are Flask's. *)
Definition api_export (send_file : string → World → result response)
    : Ledger.L response :=
  path ← Ledger.export_csv "export.csv";
  Ledger.in_world (λ w, (w, send_file path w)).

(** ** Notions used in the statements *)

(** The ids of the collection, in order. *)
Definition ids (st : Ledger.state) : list string :=
  Entry.id <$> Ledger.entries st.

(** An entry that the round trip through a record leaves alone. *)
Definition well_formed (e : Entry.t) : Prop :=
  Entry.id e ≠ "" ∧ Entry.date e ≠ "".

(** The date an entry gets: the one given, unless it is missing or empty. *)
Definition date_or_today (date : option string) (w : World) : string :=
  match date with
  | Some d => if truthy d then d else today w
  | None => today w
  end.

(** The world after one call of [uuid4]. *)
Definition drew_uuid (w : World) : World :=
  mkWorld (files w) (uuids w) (S (uuid_calls w)) (today w) (trace w).

(** For each attribute, [r1] and [r2] hold the same value, or each holds
    what [e1] and [e2] held. *)
Definition set_alike (e1 e2 r1 r2 : Entry.t) : Prop :=
  (Entry.id r1 = Entry.id r2 ∨ (Entry.id r1 = Entry.id e1 ∧ Entry.id r2 = Entry.id e2))
  ∧ (Entry.title r1 = Entry.title r2
     ∨ (Entry.title r1 = Entry.title e1 ∧ Entry.title r2 = Entry.title e2))
  ∧ (Entry.amount r1 = Entry.amount r2
     ∨ (Entry.amount r1 = Entry.amount e1 ∧ Entry.amount r2 = Entry.amount e2))
  ∧ (Entry.category r1 = Entry.category r2
     ∨ (Entry.category r1 = Entry.category e1 ∧ Entry.category r2 = Entry.category e2))
  ∧ (Entry.kind r1 = Entry.kind r2
     ∨ (Entry.kind r1 = Entry.kind e1 ∧ Entry.kind r2 = Entry.kind e2))
  ∧ (Entry.note r1 = Entry.note r2
     ∨ (Entry.note r1 = Entry.note e1 ∧ Entry.note r2 = Entry.note e2))
  ∧ (Entry.date r1 = Entry.date r2
     ∨ (Entry.date r1 = Entry.date e1 ∧ Entry.date r2 = Entry.date e2)).

(** A record as [to_dict] writes them: the seven keys, [id] and [date] not
    empty, the amount a float. *)
Definition complete (d : EntryDict) : Prop :=
  (∃ i, d_id d = Some i ∧ i ≠ "")
  ∧ is_Some (d_title d)
  ∧ (∃ a, d_amount d = Some (NFloat a))
  ∧ is_Some (d_category d)
  ∧ is_Some (d_kind d)
  ∧ is_Some (d_note d)
  ∧ (∃ t, d_date d = Some t ∧ t ≠ "").

(** [kw] occurs in [s]. *)
Definition is_substring (kw s : string) : Prop :=
  ∃ before after, s = before +:+ kw +:+ after.

(** An entry whose lower-cased title, category or note contains the
    lower-cased keyword; [lower] is [str.lower]. *)
Definition mentions (lower : string → string) (keyword : string) (e : Entry.t) : Prop :=
  is_substring (lower keyword) (lower (Entry.title e))
  ∨ is_substring (lower keyword) (lower (Entry.category e))
  ∨ is_substring (lower keyword) (lower (Entry.note e)).

(** An entry whose title, category and note are ASCII text. *)
Definition ascii_fields (e : Entry.t) : Prop :=
  is_ascii (Entry.title e) = true
  ∧ is_ascii (Entry.category e) = true
  ∧ is_ascii (Entry.note e) = true.

(** An entry none of whose strings holds a line end. *)
Definition single_line_fields (e : Entry.t) : Prop :=
  single_line (Entry.id e) = true
  ∧ single_line (Entry.date e) = true
  ∧ single_line (Entry.title e) = true
  ∧ single_line (Entry.category e) = true
  ∧ single_line (Entry.kind e) = true
  ∧ single_line (Entry.note e) = true.

(** [a] may stand before [b] in a list sorted by date, latest first. *)
Definition newer_first (a b : Entry.t) : Prop :=
  String.leb (Entry.date b) (Entry.date a) = true.

(** Every entry without a date stands before every entry with one. *)
Definition undated_first (l : list Entry.t) : Prop :=
  ∀ i j a b, l !! i = Some a → l !! j = Some b →
    Entry.date a = "" → Entry.date b ≠ "" → i < j.

(** Every entry without a date stands after every entry with one. *)
Definition undated_last (l : list Entry.t) : Prop :=
  ∀ i j a b, l !! i = Some a → l !! j = Some b →
    Entry.date a = "" → Entry.date b ≠ "" → j < i.

(** The amounts of the entries of one kind, in collection order, and their
    sum in double precision, added left to right from zero. *)
Definition amounts_of (k : string) (es : list Entry.t) : list float :=
  Entry.amount <$> filter (λ e, Entry.kind e = k) es.

Definition float_sum (xs : list float) : float := fold_left PrimFloat.add xs 0%float.

(** The rows of the exported CSV. *)
Definition csv_header : list value :=
  [VStr "id"; VStr "date"; VStr "title"; VStr "category"; VStr "kind";
   VStr "amount"; VStr "note"].

Definition csv_row (e : Entry.t) : list value :=
  [VStr (Entry.id e); VStr (Entry.date e); VStr (Entry.title e);
   VStr (Entry.category e); VStr (Entry.kind e);
   VNum (NFloat (Entry.amount e)); VStr (Entry.note e)].

(** Keys descend: [a] may stand before [b]. *)
Definition key_desc {A} (key : A → string) (a b : A) : Prop :=
  String.leb (key b) (key a) = true.

(** A run of mutating calls, each of which returns. *)
Definition run (calls : list Ledger.call) : Ledger.L (list unit) :=
  for_each Ledger.perform calls.

(** ** Strings *)

Lemma truthy_true s : truthy s = true ↔ s ≠ "".
Proof.
  unfold truthy. rewrite negb_true_iff. apply String.eqb_neq.
Qed.

Lemma truthy_false s : truthy s = false ↔ s = "".
Proof.
  unfold truthy. rewrite negb_false_iff. apply String.eqb_eq.
Qed.

Lemma string_prefix_app kw s :
  String.prefix kw s = true ↔ ∃ after, s = kw +:+ after.
Proof.
  revert s. induction kw as [|c kw IH]; intros s.
  - split; [intros _; exists s; reflexivity|]. intros _. by destruct s.
  - destruct s as [|c' s]; simpl.
    + split; [done|]. intros [after H]. discriminate H.
    + destruct (Ascii.ascii_dec c c') as [->|Hne].
      * rewrite IH. split; intros [after H]; exists after.
        -- by rewrite H.
        -- by injection H.
      * split; [done|]. intros [after H]. injection H as H1 H2. congruence.
Qed.

Lemma str_in_spec kw s : str_in kw s = true ↔ is_substring kw s.
Proof.
  unfold is_substring. induction s as [|c s IH].
  - change (str_in kw "") with (String.prefix kw "" || false).
    rewrite orb_false_r, string_prefix_app. split.
    + intros [after H]. by exists "", after.
    + intros [[|c b] [after H]]; [by exists after|discriminate H].
  - change (str_in kw (String c s)) with (String.prefix kw (String c s) || str_in kw s).
    rewrite orb_true_iff, IH, string_prefix_app. split.
    + intros [[after H]|(b & after & H)].
      * by exists "", after.
      * exists (String c b), after. simpl. by rewrite H.
    + intros ([|c' b] & after & H).
      * left. by exists after.
      * right. injection H as -> H. by exists b, after.
Qed.

Lemma str_in_empty s : str_in "" s = true.
Proof. apply str_in_spec. by exists "", s. Qed.

#[global] Instance is_substring_dec kw s : Decision (is_substring kw s).
Proof.
  destruct (str_in kw s) eqn:H.
  - left. by apply str_in_spec.
  - right. intros H'. apply str_in_spec in H'. congruence.
Defined.

#[global] Instance mentions_dec lower keyword e : Decision (mentions lower keyword e).
Proof. unfold mentions. apply _. Defined.

Lemma ascii_compare_trans c1 c2 c3 :
  Ascii.compare c1 c2 ≠ Gt → Ascii.compare c2 c3 ≠ Gt → Ascii.compare c1 c3 ≠ Gt.
Proof.
  unfold Ascii.compare. rewrite !N.compare_le_iff. lia.
Qed.

Lemma string_leb_trans s1 s2 s3 :
  String.leb s1 s2 = true → String.leb s2 s3 = true → String.leb s1 s3 = true.
Proof.
  unfold String.leb. revert s2 s3.
  induction s1 as [|c1 s1 IH]; intros [|c2 s2] [|c3 s3]; simpl; try done.
  destruct (Ascii.compare c1 c2) eqn:H12; [| |done];
    destruct (Ascii.compare c2 c3) eqn:H23; try done.
  - apply Ascii.compare_eq_iff in H12, H23. subst.
    replace (Ascii.compare c3 c3) with Eq; [apply IH|].
    symmetry. apply N.compare_refl.
  - apply Ascii.compare_eq_iff in H12. subst. by rewrite H23.
  - apply Ascii.compare_eq_iff in H23. subst. by rewrite H12.
  - intros _ _. destruct (Ascii.compare c1 c3) eqn:H13; [| done |].
    + apply Ascii.compare_eq_iff in H13. subst.
      rewrite Ascii.compare_antisym, H12 in H23. discriminate.
    + exfalso. revert H12 H23 H13. unfold Ascii.compare.
      rewrite !N.compare_lt_iff, N.compare_gt_iff. lia.
Qed.

Lemma string_leb_empty s : String.leb s "" = true → s = "".
Proof. by destruct s. Qed.

Lemma string_not_ltb_leb s1 s2 : String.ltb s1 s2 = false → String.leb s2 s1 = true.
Proof.
  unfold String.ltb, String.leb. rewrite (String.compare_antisym s2 s1).
  by destruct (String.compare s1 s2).
Qed.

Lemma string_ltb_leb s1 s2 : String.ltb s1 s2 = true → String.leb s1 s2 = true.
Proof.
  unfold String.ltb, String.leb. by destruct (String.compare s1 s2).
Qed.

Lemma string_app_assoc (a b c : string) : (a +:+ b) +:+ c = a +:+ (b +:+ c).
Proof.
  induction a as [|x a IH]; [done|].
  change (String x ((a +:+ b) +:+ c) = String x (a +:+ (b +:+ c))).
  by rewrite IH.
Qed.

(** ** Running the monad *)

Tactic Notation "run_se" :=
  cbv [mbind mret SE_bind SE_ret result_bind result_ret gets modify
       lift_result raise try_except Ledger.in_world Ledger.set_entries].
Tactic Notation "run_se" "in" hyp(H) :=
  cbv [mbind mret SE_bind SE_ret result_bind result_ret gets modify
       lift_result raise try_except Ledger.in_world Ledger.set_entries] in H.

(** ** Entry: the round trip through a record *)

(** What [Entry.__init__] leaves in [id] and [date] is never empty, as long
    as [uuid4] and the clock do not return empty strings. *)
Lemma init_id_date_nonempty title amount category kind note date id w w' e :
  (∀ n, uuids w n ≠ "") → today w ≠ "" →
  Entry.init title amount category kind note date id w = (w', Ok e) →
  Entry.id e ≠ "" ∧ Entry.date e ≠ "".
Proof.
  intros Huuid Htoday. unfold Entry.init, py_or, uuid4, today_isoformat.
  run_se.
  destruct id as [i|]; [destruct (truthy i) eqn:Hi|];
    (destruct (py_float amount); [|done]);
    (destruct date as [d|]; [destruct (truthy d) eqn:Hd|]);
    intros [= <- <-]; simpl; split; first [by apply truthy_true | auto].
Qed.

(** C1, as stated, fails: an entry whose date is the empty string (which
    [update] stores when given [date=""]) comes back from the round trip
    with the current date. *)
Lemma from_dict_to_dict_counterexample :
  ¬ (∀ (w : World) (e : Entry.t),
       (Entry.from_dict (Entry.to_dict e) w).2 = Ok e).
Proof.
  intros H.
  specialize (H (mkWorld ∅ (λ _, "1b4e28ba-2fa1-41d2-883f-0016d3cca427") 0
                         "2026-11-03" [])
                (Entry.mk "e1" "Lunch" 40 "food" "expense" "" "")).
  vm_compute in H. discriminate H.
Qed.

(** C1, amended: for every entry whose [id] and [date] are not empty, as
    [Entry.__init__] leaves them, [from_dict (to_dict e)] returns an entry
    with the same id, title, amount, category, kind, note and date, and
    neither [uuid4] nor the clock is consulted. *)
Theorem from_dict_to_dict (w : World) (e : Entry.t) :
  Entry.id e ≠ "" → Entry.date e ≠ "" →
  Entry.from_dict (Entry.to_dict e) w = (w, Ok e).
Proof.
  intros Hid Hdate. destruct e as [i t a c k n d]. simpl in *.
  apply truthy_true in Hid, Hdate.
  unfold Entry.from_dict, Entry.init, py_or. simpl. run_se.
  by rewrite Hid, Hdate.
Qed.

Lemma from_dict_to_dict_witness :
  Entry.from_dict
    (Entry.to_dict (Entry.mk "e1" "Lunch" 40 "food" "expense" "" "2024-01-01"))
    (mkWorld ∅ (λ _, "") 0 "2026-11-03" [])
  = (mkWorld ∅ (λ _, "") 0 "2026-11-03" [],
     Ok (Entry.mk "e1" "Lunch" 40 "food" "expense" "" "2024-01-01")).
Proof.
  apply (from_dict_to_dict (mkWorld ∅ (λ _, "") 0 "2026-11-03" [])
           (Entry.mk "e1" "Lunch" 40 "food" "expense" "" "2024-01-01"));
    simpl; discriminate.
Defined.

(** ** Ledger.search *)

Lemma filter_bool_decide {A} (f : A → bool) (P : A → Prop)
    `{∀ x, Decision (P x)} (l : list A) :
  (∀ x, f x = true ↔ P x) → List.filter f l = filter P l.
Proof.
  intros Hf. induction l as [|x l IH]; [done|].
  simpl. rewrite filter_cons, IH.
  destruct (f x) eqn:Hx; case_decide as HP; try done.
  - by apply Hf in Hx.
  - apply Hf in HP. congruence.
Qed.

Lemma search_test_mentions (lower : string → string) keyword e :
  str_in (lower keyword) (lower (Entry.title e))
  || str_in (lower keyword) (lower (Entry.category e))
  || str_in (lower keyword) (lower (Entry.note e)) = true
  ↔ mentions lower keyword e.
Proof.
  unfold mentions. rewrite !orb_true_iff, !str_in_spec. tauto.
Qed.

Lemma filter_all {A} (f : A → bool) (l : list A) :
  (∀ x, f x = true) → List.filter f l = l.
Proof.
  intros Hf. induction l as [|x l IH]; [done|].
  simpl. by rewrite Hf, IH.
Qed.

(** C4: with [str.lower] for [lower], whatever it does to a text,
    [search keyword] returns, in collection order, exactly the entries for
    which [lower keyword] is a substring of [lower] of the title, of the
    category or of the note; with the empty keyword, which [str.lower]
    leaves empty, it returns every entry.  The ledger and the world are left
    as they were. *)
Theorem search_returns_mentions (lower : string → string) (st : Ledger.state)
    (keyword : string) :
  Ledger.search lower keyword st
    = (st, Ok (filter (mentions lower keyword) (Ledger.entries st)))
  ∧ (lower "" = "" → Ledger.search lower "" st = (st, Ok (Ledger.entries st))).
Proof.
  split; [|intros Hempty]; unfold Ledger.search; run_se.
  - do 2 f_equal. apply filter_bool_decide, search_test_mentions.
  - do 2 f_equal. apply filter_all. intros e.
    by rewrite Hempty, str_in_empty.
Qed.

Lemma search_returns_mentions_witness :
  let st := Ledger.mk [Entry.mk "e1" "Team lunch" 40 "food" "expense" "" "2024-01-01";
                       Entry.mk "e2" "Bus" 2 "travel" "expense" "" "2024-01-02"]
                      (mkWorld ∅ (λ _, "") 0 "2026-11-03" []) in
  Ledger.search ascii_lower "LUNCH" st
    = (st, Ok (filter (mentions ascii_lower "LUNCH") (Ledger.entries st)))
  ∧ Ledger.search ascii_lower "" st = (st, Ok (Ledger.entries st)).
Proof.
  intros st.
  destruct (search_returns_mentions ascii_lower st "LUNCH") as [Hfound Hall].
  split; [exact Hfound|]. apply Hall. reflexivity.
Defined.

(** On ASCII text: the keyword [LUNCH] finds the title [Team lunch] and
    nothing else. *)
Example search_lunch (w : World) :
  (Ledger.search ascii_lower "LUNCH"
     (Ledger.mk [Entry.mk "e1" "Team lunch" 40 "food" "expense" "" "2024-01-01";
                 Entry.mk "e2" "Bus" 2 "travel" "expense" "" "2024-01-02"] w)).2
  = Ok [Entry.mk "e1" "Team lunch" 40 "food" "expense" "" "2024-01-01"].
Proof. reflexivity. Qed.

(** ** Ledger.total_balance *)

Lemma float_of_int_0 : float_of_int 0 = Ok 0%float.
Proof. vm_compute. reflexivity. Qed.

Lemma sum_from_float (a : float) (xs : list float) :
  sum_from (NFloat a) xs = Ok (NFloat (fold_left PrimFloat.add xs a)).
Proof.
  revert a. induction xs as [|x xs IH]; intros a; [done|].
  simpl. run_se. apply IH.
Qed.

(** [sum] of no item is the integer [0]; of one item or more it is the
    float [float_sum]. *)
Lemma py_sum_cases (xs : list float) :
  (xs = [] ∧ py_sum xs = Ok (NInt 0))
  ∨ (xs ≠ [] ∧ py_sum xs = Ok (NFloat (float_sum xs))).
Proof.
  destruct xs as [|x xs]; [by left|right]. split; [done|].
  unfold py_sum, float_sum. cbn [sum_from fold_left].
  unfold num_add, py_float. rewrite float_of_int_0. run_se.
  apply sum_from_float.
Qed.

Lemma filter_kind_eqb (k : string) (es : list Entry.t) :
  Entry.amount <$> List.filter (λ e, Entry.kind e =? k) es = amounts_of k es.
Proof.
  unfold amounts_of. f_equal. apply filter_bool_decide.
  intros e. apply String.eqb_eq.
Qed.

Lemma filter_filter_kind (k : string) (es : list Entry.t) :
  (k = "income" ∨ k = "expense") →
  List.filter (λ e, Entry.kind e =? k)
    (List.filter (λ e, (Entry.kind e =? "income") || (Entry.kind e =? "expense")) es)
  = List.filter (λ e, Entry.kind e =? k) es.
Proof.
  intros Hk. induction es as [|e es IH]; [done|].
  simpl. destruct (Entry.kind e =? k) eqn:He.
  - replace ((Entry.kind e =? "income") || (Entry.kind e =? "expense")) with true.
    + simpl. by rewrite He, IH.
    + symmetry. apply orb_true_iff. destruct Hk as [<-| <-]; auto.
  - destruct ((Entry.kind e =? "income") || (Entry.kind e =? "expense")); [|done].
    simpl. by rewrite He, IH.
Qed.

(** C3: [total_balance] returns; its [income] is the sum of [amount] over
    the entries of kind ["income"], its [expense] the sum over those of
    kind ["expense"], its [balance] is [income - expense]; and the result
    is the one the ledger gives once every entry of another kind is
    removed.  Sums are the doubles Python computes, added in collection
    order; a sum of no entry is the integer [0], which converts to [0.0]. *)
Theorem total_balance_sums (st : Ledger.state) :
  ∃ bal : Ledger.Balance,
    Ledger.total_balance st = (st, Ok bal)
    ∧ py_float (Ledger.income bal)
        = Ok (float_sum (amounts_of "income" (Ledger.entries st)))
    ∧ py_float (Ledger.expense bal)
        = Ok (float_sum (amounts_of "expense" (Ledger.entries st)))
    ∧ num_sub (Ledger.income bal) (Ledger.expense bal) = Ok (Ledger.balance bal)
    ∧ py_float (Ledger.balance bal)
        = Ok (float_sum (amounts_of "income" (Ledger.entries st))
              - float_sum (amounts_of "expense" (Ledger.entries st)))%float
    ∧ (Ledger.total_balance
         (Ledger.mk
            (List.filter
               (λ e, (Entry.kind e =? "income") || (Entry.kind e =? "expense"))
               (Ledger.entries st))
            (Ledger.world st))).2 = Ok bal.
Proof.
  unfold Ledger.total_balance. run_se. cbn [Ledger.entries].
  rewrite !filter_filter_kind by auto. rewrite !filter_kind_eqb.
  destruct (py_sum_cases (amounts_of "income" (Ledger.entries st)))
    as [[Ei ->]|[_ ->]];
  destruct (py_sum_cases (amounts_of "expense" (Ledger.entries st)))
    as [[Ee ->]|[_ ->]];
  rewrite ?Ei, ?Ee; simpl; rewrite ?float_of_int_0; run_se;
  eexists; (split; [reflexivity|]); simpl;
  rewrite ?float_of_int_0; run_se; auto 10.
Qed.

(** The example of the specification: 100 of income and 40 of expense
    leave a balance of 60. *)
Example total_balance_100_40 (w : World) :
  (Ledger.total_balance
     (Ledger.mk [Entry.mk "a" "Pay" 100 "job" "income" "" "2024-01-01";
                 Entry.mk "b" "Rent" 40 "home" "expense" "" "2024-01-02"] w)).2
  = Ok (Ledger.mkBalance (NFloat 100) (NFloat 40) (NFloat 60)).
Proof. reflexivity. Qed.

(** ** Ledger.save and Ledger.delete *)

Lemma save_eq (st : Ledger.state) :
  Ledger.save st
  = (Ledger.mk (Ledger.entries st)
       (mkWorld (<[DATA_FILE := JsonDoc (Entry.to_dict <$> Ledger.entries st)]>
                   (files (Ledger.world st)))
                (uuids (Ledger.world st)) (uuid_calls (Ledger.world st))
                (today (Ledger.world st))
                (trace (Ledger.world st) ++ [EvWrite DATA_FILE])),
     Ok tt).
Proof. reflexivity. Qed.

Lemma save_in_sync (st : Ledger.state) : Ledger.in_sync (Ledger.save st).1.
Proof.
  rewrite save_eq. unfold Ledger.in_sync, Ledger.persisted. simpl.
  by rewrite lookup_insert_eq.
Qed.

Lemma filter_length_eq {A} (f : A → bool) (l : list A) :
  length (List.filter f l) = length l → List.filter f l = l.
Proof.
  induction l as [|x l IH]; [done|]. simpl.
  destruct (f x); simpl; intros Hlen.
  - f_equal. apply IH. lia.
  - pose proof (List.filter_length_le f l). lia.
Qed.

Lemma filter_keeps_unknown (entry_id : string) (es : list Entry.t) :
  Forall (λ e, Entry.id e ≠ entry_id) es →
  List.filter (λ e, negb (Entry.id e =? entry_id)) es = es.
Proof.
  intros Hes. induction Hes as [|e es He _ IH]; [done|].
  simpl. apply String.eqb_neq in He. by rewrite He, IH.
Qed.

(** [delete] in one equation: the entries with another id are kept in
    order; the file is rewritten exactly when the list got shorter. *)
Lemma delete_eq (entry_id : string) (st : Ledger.state) :
  Ledger.delete entry_id st =
    let es' := List.filter (λ e, negb (Entry.id e =? entry_id)) (Ledger.entries st) in
    if (length es' <? length (Ledger.entries st))%nat
    then ((Ledger.save (Ledger.mk es' (Ledger.world st))).1, Ok true)
    else (Ledger.mk es' (Ledger.world st), Ok false).
Proof.
  unfold Ledger.delete. run_se. cbn [Ledger.entries Ledger.world].
  by destruct (length _ <? length _)%nat.
Qed.

(** C5: when no entry has the given id, [delete] returns [False] and the
    ledger and the world (every file, the trace of writes) are what they
    were; and whenever [delete] touches the world at all, an entry was
    removed and it returns [True]. *)
Theorem delete_unknown_id (st : Ledger.state) (entry_id : string) :
  (Forall (λ e, Entry.id e ≠ entry_id) (Ledger.entries st) →
   Ledger.delete entry_id st = (st, Ok false))
  ∧ (∀ st' r, Ledger.delete entry_id st = (st', r) →
       Ledger.world st' ≠ Ledger.world st →
       r = Ok true
       ∧ length (Ledger.entries st') < length (Ledger.entries st)
       ∧ Exists (λ e, Entry.id e = entry_id) (Ledger.entries st)).
Proof.
  rewrite delete_eq. cbv zeta. split.
  - intros Hes. rewrite filter_keeps_unknown by done.
    rewrite Nat.ltb_irrefl. by destruct st.
  - intros st' r.
    destruct (length _ <? length _)%nat eqn:Hlt; intros [= <- <-]; [|done].
    intros _. apply Nat.ltb_lt in Hlt. split; [done|]. split; [done|].
    destruct (decide (Exists (λ e, Entry.id e = entry_id) (Ledger.entries st)))
      as [|Hno]; [done|].
    apply not_Exists_Forall in Hno; [|intros e; apply _].
    rewrite filter_keeps_unknown in Hlt; [lia|].
    eapply Forall_impl; [exact Hno|]. done.
Qed.

Lemma delete_unknown_id_witness :
  Ledger.delete "no-such-id"
    (Ledger.mk [Entry.mk "e1" "Lunch" 40 "food" "expense" "" "2024-01-01"]
               (mkWorld ∅ (λ _, "") 0 "2026-11-03" []))
  = (Ledger.mk [Entry.mk "e1" "Lunch" 40 "food" "expense" "" "2024-01-01"]
               (mkWorld ∅ (λ _, "") 0 "2026-11-03" []),
     Ok false).
Proof.
  apply (delete_unknown_id
           (Ledger.mk [Entry.mk "e1" "Lunch" 40 "food" "expense" "" "2024-01-01"]
                      (mkWorld ∅ (λ _, "") 0 "2026-11-03" []))
           "no-such-id").
  simpl. repeat constructor. discriminate.
Defined.

(** C10: after [delete entry_id] no entry with that id remains, however
    many there were; the entries kept are the others, in their order. *)
Theorem delete_removes_every_match (st : Ledger.state) (entry_id : string) :
  Forall (λ e, Entry.id e ≠ entry_id)
         (Ledger.entries (Ledger.delete entry_id st).1)
  ∧ Ledger.entries (Ledger.delete entry_id st).1
    = filter (λ e, Entry.id e ≠ entry_id) (Ledger.entries st).
Proof.
  assert (Ledger.entries (Ledger.delete entry_id st).1
          = filter (λ e, Entry.id e ≠ entry_id) (Ledger.entries st)) as ->.
  { rewrite delete_eq. cbv zeta.
    destruct (length _ <? length _)%nat; simpl;
      apply filter_bool_decide; intros e;
      by rewrite negb_true_iff, String.eqb_neq. }
  split; [|done]. apply Forall_forall. intros e He.
  apply list_elem_of_filter in He. tauto.
Qed.

(** Three entries share the id ["dup"]; one call removes all three. *)
Example delete_duplicates (w : World) :
  Ledger.entries
    (Ledger.delete "dup"
       (Ledger.mk [Entry.mk "dup" "a" 1 "c" "income" "" "2024-01-01";
                   Entry.mk "x" "b" 2 "c" "income" "" "2024-01-02";
                   Entry.mk "dup" "c" 3 "c" "expense" "" "2024-01-03";
                   Entry.mk "dup" "d" 4 "c" "expense" "" "2024-01-04"] w)).1
  = [Entry.mk "x" "b" 2 "c" "income" "" "2024-01-02"].
Proof. reflexivity. Qed.

(** ** Ledger.update *)

Lemma set_field_id (e e' : Entry.t) (kw : Ledger.kwarg) :
  (∀ v, kw ≠ Ledger.kw_id (Some v)) →
  Ledger.set_field e kw = Ok e' → Entry.id e' = Entry.id e.
Proof.
  intros Hkw. destruct e as [i t a c k n d].
  destruct kw as [[v|]|[v|]|[v|]|ex|[v|]|[v|]|[v|]|[v|]|name]; simpl;
    try done; try (intros [= <-]; reflexivity).
  - by destruct (Hkw v).
  - destruct (py_float v); simpl; [|done]. by intros [= <-].
Qed.

Lemma set_fields_id (e : Entry.t) (kwargs : list Ledger.kwarg) :
  (∀ v, Ledger.kw_id (Some v) ∉ kwargs) →
  Entry.id (Ledger.set_fields e kwargs).1 = Entry.id e.
Proof.
  revert e. induction kwargs as [|kw kwargs IH]; intros e Hno; [done|].
  simpl. destruct (Ledger.set_field e kw) as [e'|ex] eqn:He; [|done].
  rewrite IH.
  - eapply set_field_id; [|done]. intros v ->. apply (Hno v). left.
  - intros v Hv. apply (Hno v). by right.
Qed.

(** The three ways [update] can end. *)
Lemma update_from_cases (seen rest : list Entry.t) (entry_id : string)
    (kwargs : list Ledger.kwarg) (st : Ledger.state) :
  (Forall (λ e, Entry.id e ≠ entry_id) rest
   ∧ Ledger.update_from seen rest entry_id kwargs st = (st, Ok None))
  ∨ (∃ before e after,
       rest = before ++ e :: after
       ∧ Forall (λ e, Entry.id e ≠ entry_id) before
       ∧ Entry.id e = entry_id
       ∧ let e' := (Ledger.set_fields e kwargs).1 in
         let st' := Ledger.mk (seen ++ before ++ e' :: after) (Ledger.world st) in
         match (Ledger.set_fields e kwargs).2 with
         | Some ex =>
           Ledger.update_from seen rest entry_id kwargs st = (st', Raise ex)
         | None =>
           Ledger.update_from seen rest entry_id kwargs st
             = ((Ledger.save st').1, Ok (Some e'))
         end).
Proof.
  revert seen. induction rest as [|e rest IH]; intros seen.
  - left. by split.
  - simpl. destruct (Entry.id e =? entry_id) eqn:He.
    + right. exists [], e, rest. apply String.eqb_eq in He.
      split; [done|]. split; [done|]. split; [done|]. cbv zeta.
      destruct (Ledger.set_fields e kwargs) as [e' [ex|]]; reflexivity.
    + apply String.eqb_neq in He.
      destruct (IH (seen ++ [e])) as [[Hno Heq]|(before & e0 & after & -> & Hno & Hid & Heq)].
      * left. split; [by constructor|done].
      * right. exists (e :: before), e0, after.
        split; [done|]. split; [by constructor|]. split; [done|].
        cbv zeta in *. rewrite <- (assoc_L (++)) in Heq. exact Heq.
Qed.

(** C7, as stated, fails: [update] sets whatever attribute a keyword names,
    [id] included. *)
Lemma update_keeps_ids_counterexample :
  ¬ (∀ (st : Ledger.state) (entry_id : string) (kwargs : list Ledger.kwarg),
       Entry.id <$> Ledger.entries (Ledger.update entry_id kwargs st).1
       = Entry.id <$> Ledger.entries st).
Proof.
  intros H.
  specialize (H (Ledger.mk [Entry.mk "e1" "Lunch" 40 "food" "expense" "" "2024-01-01"]
                           (mkWorld ∅ (λ _, "") 0 "2026-11-03" []))
                "e1" [Ledger.kw_id (Some "e2")]).
  vm_compute in H. discriminate H.
Qed.

(** C7, amended: an [update] whose keywords carry no value for [id] leaves
    the id of every entry as it was, whether it matches, fails on the way
    or finds nothing. *)
Theorem update_keeps_ids (st : Ledger.state) (entry_id : string)
    (kwargs : list Ledger.kwarg) :
  (∀ v, Ledger.kw_id (Some v) ∉ kwargs) →
  Entry.id <$> Ledger.entries (Ledger.update entry_id kwargs st).1
  = Entry.id <$> Ledger.entries st.
Proof.
  intros Hno. unfold Ledger.update. run_se.
  destruct (update_from_cases [] (Ledger.entries st) entry_id kwargs st)
    as [[_ ->]|(before & e & after & Hes & _ & _ & Heq)]; [done|].
  cbv zeta in Heq. rewrite Hes at 2.
  pose proof (set_fields_id e kwargs Hno) as Hid.
  destruct (Ledger.set_fields e kwargs) as [e' [ex|]]; rewrite Heq; simpl in *;
    by rewrite !fmap_app, !fmap_cons, Hid.
Qed.

(** The keywords [api_update] passes never include [id]. *)
Lemma api_update_kwargs_no_id (data : EntryDict) (v : string) :
  Ledger.kw_id (Some v) ∉ Ledger.api_update_kwargs data.
Proof.
  unfold Ledger.api_update_kwargs. rewrite !not_elem_of_cons.
  repeat split; try discriminate. apply not_elem_of_nil.
Qed.

Lemma update_keeps_ids_witness :
  Entry.id <$> Ledger.entries
    (Ledger.update "e1"
       (Ledger.api_update_kwargs
          (mkDict None (Some "Dinner") (Some (NInt 12)) None None None (Some "")))
       (Ledger.mk [Entry.mk "e1" "Lunch" 40 "food" "expense" "" "2024-01-01"]
                  (mkWorld ∅ (λ _, "") 0 "2026-11-03" []))).1
  = ["e1"].
Proof.
  apply (update_keeps_ids
           (Ledger.mk [Entry.mk "e1" "Lunch" 40 "food" "expense" "" "2024-01-01"]
                      (mkWorld ∅ (λ _, "") 0 "2026-11-03" []))
           "e1"
           (Ledger.api_update_kwargs
              (mkDict None (Some "Dinner") (Some (NInt 12)) None None None (Some "")))).
  intros v Hv. vm_compute in Hv.
  repeat (apply elem_of_cons in Hv as [Hv|Hv]; [discriminate Hv|]).
  by apply elem_of_nil in Hv.
Defined.

(** ** The data file and the in-memory collection *)

Lemma in_sync_same (st st' : Ledger.state) :
  Ledger.entries st' = Ledger.entries st →
  files (Ledger.world st') = files (Ledger.world st) →
  Ledger.in_sync st → Ledger.in_sync st'.
Proof.
  unfold Ledger.in_sync, Ledger.persisted. by intros -> ->.
Qed.

(** One call that returns either leaves the file equal to the collection
    or has changed neither. *)
Lemma perform_in_sync (c : Ledger.call) (st st' : Ledger.state) :
  Ledger.perform c st = (st', Ok tt) →
  Ledger.in_sync st'
  ∨ (Ledger.entries st' = Ledger.entries st
     ∧ files (Ledger.world st') = files (Ledger.world st)).
Proof.
  destruct c as [entry|entry_id|entry_id kwargs]; simpl.
  - unfold Ledger.add. run_se. fold (Ledger.save (Ledger.mk (Ledger.entries st ++ [entry]) (Ledger.world st))).
    rewrite save_eq. intros [= <-]. left.
    apply (save_in_sync (Ledger.mk (Ledger.entries st ++ [entry]) (Ledger.world st))).
  - run_se. rewrite delete_eq. cbv zeta.
    destruct (length _ <? length _)%nat eqn:Hlt; intros [= <-].
    + left. exact (save_in_sync (Ledger.mk _ (Ledger.world st))).
    + right. split; [|done]. simpl. apply filter_length_eq.
      apply Nat.ltb_ge in Hlt.
      pose proof (List.filter_length_le
                    (λ e, negb (Entry.id e =? entry_id)) (Ledger.entries st)).
      lia.
  - unfold Ledger.update. run_se.
    destruct (update_from_cases [] (Ledger.entries st) entry_id kwargs st)
      as [[_ ->]|(before & e & after & _ & _ & _ & Heq)].
    + intros [= <-]. by right.
    + cbv zeta in Heq.
      destruct (Ledger.set_fields e kwargs) as [e' [ex|]]; rewrite Heq; [done|].
      intros [= <-]. left. exact (save_in_sync (Ledger.mk _ (Ledger.world st))).
Qed.

(** C6, as stated, fails.  The data file holds one record with an empty
    date, as [save] writes it after an update with [date=""]; [load] gives
    the entry the current date; a [delete] of an unknown id returns without
    saving, and the file still differs from the collection. *)
Lemma persisted_equals_memory_counterexample :
  ¬ (∀ (w : World) (calls : list Ledger.call) (st' : Ledger.state) (rs : list unit),
       run calls (Ledger.fresh w) = (st', Ok rs) → Ledger.in_sync st').
Proof.
  intros H.
  pose (w := mkWorld
               {[ DATA_FILE :=
                    JsonDoc [mkDict (Some "e1") (Some "Lunch") (Some (NFloat 40))
                                    (Some "food") (Some "expense") (Some "")
                                    (Some "")] ]}
               (λ _, "1b4e28ba-2fa1-41d2-883f-0016d3cca427") 0 "2026-11-03" []).
  specialize (H w [Ledger.Delete "no-such-id"]
                (run [Ledger.Delete "no-such-id"] (Ledger.fresh w)).1 [tt]).
  assert (Ledger.in_sync (run [Ledger.Delete "no-such-id"] (Ledger.fresh w)).1) as Hsync.
  { apply H. vm_compute. reflexivity. }
  vm_compute in Hsync. discriminate Hsync.
Qed.

(** C6, amended: after a run of Add/Delete/Update calls that all return,
    started from a freshly constructed ledger or from any other state,
    either the records in the data file are exactly the in-memory entries,
    or nothing has changed since the start: the collection and every file
    are what they were.  So file and memory agree from the first call that
    saves onwards, and before it they agree if they did at the start. *)
Theorem persisted_equals_memory (st st' : Ledger.state)
    (calls : list Ledger.call) (rs : list unit) :
  run calls st = (st', Ok rs) →
  Ledger.in_sync st'
  ∨ (Ledger.entries st' = Ledger.entries st
     ∧ files (Ledger.world st') = files (Ledger.world st)).
Proof.
  unfold run. revert st rs.
  induction calls as [|c calls IH]; intros st rs; simpl.
  - run_se. intros [= <- _]. by right.
  - run_se. destruct (Ledger.perform c st) as [st1 [[]|ex]] eqn:Hc; [|done].
    destruct (for_each Ledger.perform calls st1) as [st2 [rs2|ex]] eqn:Hcs; [|done].
    intros [= <- _].
    destruct (IH _ _ Hcs) as [Hsync|[Hes Hfs]]; [by left|].
    destruct (perform_in_sync _ _ _ Hc) as [Hsync1|[Hes1 Hfs1]].
    + left. by apply (in_sync_same st1).
    + right. split; congruence.
Qed.

Lemma persisted_equals_memory_witness :
  let st := Ledger.fresh (mkWorld ∅ (λ _, "") 0 "2026-11-03" []) in
  let calls :=
    [Ledger.Add (Entry.mk "e1" "Lunch" 40 "food" "expense" "" "2024-01-01");
     Ledger.Update "e1" [Ledger.kw_date (Some "")];
     Ledger.Delete "no-such-id"] in
  Ledger.in_sync (run calls st).1
  ∨ (Ledger.entries (run calls st).1 = Ledger.entries st
     ∧ files (Ledger.world (run calls st).1) = files (Ledger.world st)).
Proof.
  intros st calls.
  apply (persisted_equals_memory st (run calls st).1 calls [tt; tt; tt]).
  vm_compute. reflexivity.
Defined.

(** The file of the counterexample is one the program writes itself: add
    an entry to an empty ledger, then update it with [date=""]. *)
Example empty_date_is_saved :
  files (Ledger.world
    (run [Ledger.Add (Entry.mk "e1" "Lunch" 40 "food" "expense" "" "2024-01-01");
          Ledger.Update "e1" [Ledger.kw_date (Some "")]]
         (Ledger.fresh (mkWorld ∅ (λ _, "") 0 "2026-11-03" []))).1) !! DATA_FILE
  = Some (JsonDoc [mkDict (Some "e1") (Some "Lunch") (Some (NFloat 40))
                          (Some "food") (Some "expense") (Some "") (Some "")]).
Proof. vm_compute. reflexivity. Qed.

(** Why the calls of a run must return: an [update] that raises on the
    amount has already set the title in memory and saves nothing, so the
    next call that returns without saving finds file and memory apart. *)
Example update_raises_after_setting_title :
  let st := (run [Ledger.Add (Entry.mk "e1" "Lunch" 40 "food" "expense" "" "2024-01-01")]
                 (Ledger.fresh (mkWorld ∅ (λ _, "") 0 "2026-11-03" []))).1 in
  let '(st1, r1) :=
    Ledger.update "e1" [Ledger.kw_title (Some "Dinner");
                        Ledger.kw_amount (Some (NInt (10 ^ 400)))] st in
  let '(st2, r2) := Ledger.delete "no-such-id" st1 in
  r1 = Raise OverflowError
  ∧ r2 = Ok false
  ∧ Entry.title <$> Ledger.entries st2 = ["Dinner"]
  ∧ d_title <$> Ledger.persisted st2 = [Some "Lunch"].
Proof. vm_compute. repeat split. Qed.

(** ** Ledger.load *)

Lemma for_each_from_dict (records : list EntryDict) (w w' : World)
    (es : list Entry.t) :
  for_each Entry.from_dict records w = (w', Ok es) →
  Forall2 (λ d e, ∃ w1 w2, Entry.from_dict d w1 = (w2, Ok e)) records es.
Proof.
  revert w w' es.
  induction records as [|d records IH]; intros w w' es; simpl; run_se.
  - intros [= _ <-]. constructor.
  - destruct (Entry.from_dict d w) as [w1 [e|ex]] eqn:Hd; [|done].
    destruct (for_each Entry.from_dict records w1) as [w2 [es'|ex]] eqn:Hrs; [|done].
    intros [= _ <-]. constructor; eauto.
Qed.

Lemma path_exists_eq (path : string) (w : World) :
  path_exists path w = (w, Ok (bool_decide (is_Some (files w !! path)))).
Proof. reflexivity. Qed.

(** C8: [load] always returns, and so does the constructor.  When the data
    file is absent the collection is empty.  When opening or parsing it
    raises, or [from_dict] raises on one of its records, the exception is
    printed and the collection is empty.  Otherwise the collection is the
    list of the [from_dict] of each record of the file, in order. *)
Theorem load_never_fails (st : Ledger.state) :
  ∃ st' : Ledger.state,
    Ledger.load st = (st', Ok tt)
    ∧ Ledger.init st = (st', Ok tt)
    ∧ match files (Ledger.world st) !! DATA_FILE with
      | None => Ledger.entries st' = [] ∧ Ledger.world st' = Ledger.world st
      | Some (JsonDoc records) =>
        match for_each Entry.from_dict records (Ledger.world st) with
        | (_, Ok es) =>
          Ledger.entries st' = es
          ∧ Forall2 (λ d e, ∃ w1 w2, Entry.from_dict d w1 = (w2, Ok e)) records es
        | (_, Raise ex) =>
          Ledger.entries st' = []
          ∧ last (trace (Ledger.world st')) = Some (EvPrint ex)
        end
      | Some (CsvDoc _) =>
        Ledger.entries st' = []
        ∧ last (trace (Ledger.world st')) = Some (EvPrint JSONDecodeError)
      | Some (Unreadable ex) =>
        Ledger.entries st' = []
        ∧ last (trace (Ledger.world st')) = Some (EvPrint ex)
      end.
Proof.
  unfold Ledger.init, Ledger.load. run_se. cbn [Ledger.world Ledger.entries].
  rewrite path_exists_eq. unfold read_json, print. run_se.
  destruct (files (Ledger.world st) !! DATA_FILE) as [[records|rows|ex]|] eqn:Hf;
    simpl; rewrite ?Hf; simpl.
  - destruct (for_each Entry.from_dict records (Ledger.world st))
      as [w' [es|ex]] eqn:Hrs; simpl.
    + eexists. split; [reflexivity|]. split; [reflexivity|]. simpl.
      split; [done|]. by eapply for_each_from_dict.
    + eexists. split; [reflexivity|]. split; [reflexivity|]. simpl.
      split; [done|]. apply last_snoc.
  - eexists. split; [reflexivity|]. split; [reflexivity|]. simpl.
    split; [done|]. apply last_snoc.
  - eexists. split; [reflexivity|]. split; [reflexivity|]. simpl.
    split; [done|]. apply last_snoc.
  - eexists. split; [reflexivity|]. split; [reflexivity|]. by simpl.
Qed.

(** A record whose amount is too large for a double: [from_dict] raises
    inside the comprehension and the collection is empty, although the
    file itself parsed. *)
Example load_overflowing_amount :
  Ledger.entries
    (Ledger.fresh
       (mkWorld {[ DATA_FILE :=
                     JsonDoc [mkDict (Some "e1") (Some "Lunch") (Some (NFloat 40))
                                     (Some "food") (Some "expense") (Some "")
                                     (Some "2024-01-01");
                              mkDict (Some "e2") (Some "Moon") (Some (NInt (10 ^ 400)))
                                     None None None None] ]}
                (λ _, "") 0 "2026-11-03" []))
  = [].
Proof. vm_compute. reflexivity. Qed.

(** ** Ledger.export_csv *)

Lemma dict_to_list_to_dict (e : Entry.t) :
  Ledger.dict_to_list Ledger.fieldnames (Entry.to_dict e) = Ok (csv_row e).
Proof. destruct e. vm_compute. reflexivity. Qed.

Lemma date_key_date (e : Entry.t) : Ledger.date_key e = Entry.date e.
Proof.
  unfold Ledger.date_key. destruct (truthy (Entry.date e)) eqn:H; [done|].
  by apply truthy_false in H.
Qed.

Lemma for_each_cons_ok {S A B} (body : A → SE S B) (x : A) (l : list A)
    (s s1 s2 : S) (y : B) (ys : list B) :
  body x s = (s1, Ok y) → for_each body l s1 = (s2, Ok ys) →
  for_each body (x :: l) s = (s2, Ok (y :: ys)).
Proof. intros Hx Hl. simpl. run_se. by rewrite Hx, Hl. Qed.

Lemma writerow_to_dict (csv_path : string) (e : Entry.t) (rows : list (list value))
    (es0 : list Entry.t) (fs : gmap string file) (u : nat → string) (n : nat)
    (t : string) (tr : list event) :
  Ledger.writerow csv_path Ledger.fieldnames (Entry.to_dict e)
    (Ledger.mk es0 (mkWorld (<[csv_path := CsvDoc rows]> fs) u n t tr))
  = (Ledger.mk es0
       (mkWorld (<[csv_path := CsvDoc (rows ++ [csv_row e])]> fs) u n t tr),
     Ok tt).
Proof.
  unfold Ledger.writerow. rewrite dict_to_list_to_dict.
  unfold append_row. run_se. simpl.
  by rewrite lookup_insert_eq, insert_insert_eq.
Qed.

(** The loop of [export_csv]: one row per entry is appended to the rows
    the file already has. *)
Lemma export_rows (csv_path : string) (es : list Entry.t) (rows : list (list value))
    (es0 : list Entry.t) (fs : gmap string file) (u : nat → string) (n : nat)
    (t : string) (tr : list event) :
  ∃ units,
    for_each (λ e, let row := Entry.to_dict e in
                   Ledger.writerow csv_path Ledger.fieldnames row) es
      (Ledger.mk es0 (mkWorld (<[csv_path := CsvDoc rows]> fs) u n t tr))
    = (Ledger.mk es0
         (mkWorld (<[csv_path := CsvDoc (rows ++ (csv_row <$> es))]> fs) u n t tr),
       Ok units).
Proof.
  revert rows. induction es as [|e es IH]; intros rows.
  - exists []. simpl. by rewrite app_nil_r.
  - destruct (IH (rows ++ [csv_row e])) as [units Hunits].
    exists (tt :: units). eapply for_each_cons_ok.
    + apply writerow_to_dict.
    + rewrite Hunits. by rewrite <- (assoc_L (++)).
Qed.

(** ** Ledger.list_all *)

Section sorted_reverse.
Context {A : Type} (key : A → string).

Lemma key_desc_trans a b c :
  key_desc key a b → key_desc key b c → key_desc key a c.
Proof. unfold key_desc. intros Hab Hbc. by eapply string_leb_trans. Qed.

Lemma sorted_insert_perm (r : bool) (x : A) (l : list A) :
  sorted_insert key r x l ≡ₚ x :: l.
Proof.
  induction l as [|y l IH]; [done|]. simpl.
  destruct (goes_before r (key y) (key x)); [|done].
  rewrite IH. apply Permutation_swap.
Qed.

Lemma sorted_perm (r : bool) (l : list A) : sorted key r l ≡ₚ l.
Proof.
  induction l as [|x l IH]; [done|]. simpl.
  by rewrite sorted_insert_perm, IH.
Qed.

Lemma sorted_insert_desc (x : A) (l : list A) :
  StronglySorted (key_desc key) l → StronglySorted (key_desc key) (sorted_insert key true x l).
Proof.
  induction l as [|y l IH]; intros Hl; simpl.
  - repeat constructor.
  - apply StronglySorted_cons in Hl as [Hy Hl].
    destruct (String.ltb (key x) (key y)) eqn:Hxy.
    + apply StronglySorted_cons. split; [|by apply IH].
      rewrite sorted_insert_perm. constructor; [|done].
      by apply string_ltb_leb.
    + apply string_not_ltb_leb in Hxy.
      apply StronglySorted_cons. split.
      * constructor; [done|].
        eapply Forall_impl; [exact Hy|]. intros z Hz.
        by apply (key_desc_trans x y z).
      * by apply StronglySorted_cons.
Qed.

Lemma sorted_desc (l : list A) : StronglySorted (key_desc key) (sorted key true l).
Proof.
  induction l as [|x l IH]; simpl; [constructor|by apply sorted_insert_desc].
Qed.

(** The sort is stable: the items of one key keep their order. *)
Lemma sorted_insert_stable (k : string) (x : A) (l : list A) :
  StronglySorted (key_desc key) l →
  filter (λ a, key a = k) (sorted_insert key true x l)
  = filter (λ a, key a = k) (x :: l).
Proof.
  induction l as [|y l IH]; intros Hl; [done|]. simpl.
  apply StronglySorted_cons in Hl as [Hy Hl].
  destruct (String.ltb (key x) (key y)) eqn:Hxy; [|done].
  rewrite (filter_cons _ y), IH by done.
  rewrite !filter_cons.
  repeat case_decide; try done. subst.
  unfold String.ltb in Hxy. replace (key x) with (key y) in Hxy by congruence.
  assert ((key y ?= key y)%string = Eq) as Heq.
  { pose proof (String.compare_antisym (key y) (key y)) as H'.
    by destruct (key y ?= key y)%string. }
  by rewrite Heq in Hxy.
Qed.

Lemma sorted_stable (k : string) (l : list A) :
  filter (λ a, key a = k) (sorted key true l) = filter (λ a, key a = k) l.
Proof.
  induction l as [|x l IH]; [done|]. simpl.
  rewrite sorted_insert_stable by apply sorted_desc.
  by rewrite !filter_cons, IH.
Qed.

End sorted_reverse.

Lemma StronglySorted_lookup {A} (R : A → A → Prop) (l : list A) (i j : nat) (a b : A) :
  StronglySorted R l → i < j → l !! i = Some a → l !! j = Some b → R a b.
Proof.
  intros Hl. revert i j. induction Hl as [|x l Hl IH Hx]; intros i j Hij Hi Hj.
  - done.
  - destruct j as [|j]; [lia|]. destruct i as [|i]; simpl in *.
    + injection Hi as ->. rewrite Forall_forall in Hx. apply Hx.
      by eapply list_elem_of_lookup_2.
    + apply (IH i j); [lia|done..].
Qed.

Lemma StronglySorted_weaken {A} (R R' : A → A → Prop) (l : list A) :
  (∀ a b, R a b → R' a b) → StronglySorted R l → StronglySorted R' l.
Proof.
  intros HR Hl. induction Hl as [|x l Hl IH Hx]; constructor; [done|].
  eapply Forall_impl; [exact Hx|]. intros b. apply HR.
Qed.

Lemma list_all_eq (st : Ledger.state) :
  Ledger.list_all st = (st, Ok (sorted Ledger.date_key true (Ledger.entries st))).
Proof. reflexivity. Qed.

Lemma list_all_sorted (st : Ledger.state) :
  StronglySorted newer_first (sorted Ledger.date_key true (Ledger.entries st)).
Proof.
  eapply StronglySorted_weaken; [|apply (sorted_desc Ledger.date_key)].
  intros a b. unfold key_desc, newer_first. by rewrite !date_key_date.
Qed.

(** C2, as stated, fails: with one dated and one undated entry the undated
    one is listed last, not first. *)
Lemma list_all_undated_first_counterexample :
  ¬ (∀ st : Ledger.state,
       ∃ listed, Ledger.list_all st = (st, Ok listed)
                 ∧ listed ≡ₚ Ledger.entries st
                 ∧ StronglySorted newer_first listed
                 ∧ undated_first listed).
Proof.
  intros H.
  destruct (H (Ledger.mk [Entry.mk "e1" "Cash" 5 "misc" "income" "" "";
                          Entry.mk "e2" "Lunch" 40 "food" "expense" "" "2024-01-01"]
                         (mkWorld ∅ (λ _, "") 0 "2026-11-03" [])))
    as (listed & Hlist & _ & _ & Hfirst).
  vm_compute in Hlist. injection Hlist as <-.
  specialize (Hfirst 1 0 _ _ eq_refl eq_refl eq_refl).
  simpl in Hfirst. assert (1 < 0) by (apply Hfirst; discriminate). lia.
Qed.

(** C2, amended: [list_all] returns all the entries, sorted by date
    descending under lexicographic comparison of the date strings, and
    leaves the ledger as it was; every entry whose date is empty comes
    last, after all the dated entries. *)
Theorem list_all_sorted_by_date (st : Ledger.state) :
  ∃ listed, Ledger.list_all st = (st, Ok listed)
            ∧ listed ≡ₚ Ledger.entries st
            ∧ StronglySorted newer_first listed
            ∧ undated_last listed.
Proof.
  exists (sorted Ledger.date_key true (Ledger.entries st)).
  split; [apply list_all_eq|]. split; [apply sorted_perm|].
  split; [apply list_all_sorted|].
  intros i j a b Hi Hj Ha Hb.
  destruct (decide (j < i)) as [|Hji]; [done|]. exfalso.
  destruct (decide (i = j)) as [->|Hne]; [congruence|].
  assert (newer_first a b) as Hab.
  { eapply (StronglySorted_lookup _ _ i j); [apply list_all_sorted|lia|done..]. }
  unfold newer_first in Hab. rewrite Ha in Hab.
  by apply string_leb_empty in Hab.
Qed.

(** The example of the specification. *)
Example list_all_three_dates (w : World) :
  Entry.date <$>
    sorted Ledger.date_key true
      [Entry.mk "a" "x" 1 "c" "income" "" "2024-01-01";
       Entry.mk "b" "y" 2 "c" "income" "" "2024-03-01";
       Entry.mk "c" "z" 3 "c" "income" "" "2024-02-01"]
  = ["2024-03-01"; "2024-02-01"; "2024-01-01"].
Proof. reflexivity. Qed.

(** ** The text of the exported file *)

Lemma single_line_app (a b : string) :
  single_line (a +:+ b) = single_line a && single_line b.
Proof.
  induction a as [|c a IH]; [done|].
  change (single_line (String c (a +:+ b))
          = single_line (String c a) && single_line b).
  cbn [single_line]. by rewrite IH, andb_assoc.
Qed.

Lemma single_line_double_quotes (s : string) :
  single_line (double_quotes s) = single_line s.
Proof.
  induction s as [|c s IH]; [done|]. cbn [double_quotes].
  destruct (Ascii.eqb c QUOTE) eqn:Hc.
  - apply Ascii.eqb_eq in Hc as ->. cbn [single_line]. by rewrite IH.
  - cbn [single_line]. by rewrite IH.
Qed.

Lemma single_line_csv_field (s : string) :
  single_line s = true → single_line (csv_field s) = true.
Proof.
  intros Hs. unfold csv_field. destruct (has_special s); [|done].
  change (single_line (double_quotes s +:+ String QUOTE EmptyString) = true).
  by rewrite single_line_app, single_line_double_quotes, Hs.
Qed.

Lemma single_line_concat (l : list string) :
  Forall (λ s, single_line s = true) l → single_line (String.concat "," l) = true.
Proof.
  induction 1 as [|s l Hs Hl IH]; [done|].
  destruct l as [|s' l]; [done|].
  change (single_line (s +:+ "," +:+ String.concat "," (s' :: l)) = true).
  by rewrite !single_line_app, Hs, IH.
Qed.

(** A text without a line end, then the line terminator, is one line. *)
Lemma line_count_line (s rest : string) :
  single_line s = true → line_count (s +:+ CRLF +:+ rest) = S (line_count rest).
Proof.
  intros Hs. induction s as [|c s IH].
  - change (line_count (String CR (String LF rest)) = S (line_count rest)).
    reflexivity.
  - change (line_count (String c (s +:+ CRLF +:+ rest)) = S (line_count rest)).
    cbn [single_line] in Hs. apply andb_true_iff in Hs as [Hc Hs].
    apply negb_true_iff, orb_false_iff in Hc as [Hcr Hlf].
    cbn [line_count]. rewrite Hlf, Hcr. by apply IH.
Qed.

Lemma line_count_csv_record (num_text : number → string) (row : list value)
    (rest : string) :
  Forall (λ v, single_line (cell_text num_text v) = true) row →
  line_count (csv_record num_text row +:+ rest) = S (line_count rest).
Proof.
  intros Hrow. unfold csv_record. cbv zeta. rewrite string_app_assoc.
  apply line_count_line. case_bool_decide; [done|].
  apply single_line_concat. rewrite !Forall_fmap.
  eapply Forall_impl; [exact Hrow|]. intros v Hv. by apply single_line_csv_field.
Qed.

Lemma line_count_csv_text (num_text : number → string) (rows : list (list value)) :
  Forall (Forall (λ v, single_line (cell_text num_text v) = true)) rows →
  line_count (csv_text num_text rows) = length rows.
Proof.
  induction 1 as [|row rows Hrow Hrows IH]; [done|].
  cbn [csv_text foldr length]. rewrite line_count_csv_record by done.
  f_equal. exact IH.
Qed.

Lemma single_line_csv_row (num_text : number → string) (e : Entry.t) :
  (∀ n, single_line (num_text n) = true) → single_line_fields e →
  Forall (λ v, single_line (cell_text num_text v) = true) (csv_row e).
Proof.
  intros Hnum (Hid & Hdate & Htitle & Hcat & Hkind & Hnote).
  unfold csv_row. repeat constructor; cbn [cell_text]; auto.
Qed.

(** C9, as stated, fails: a note that holds a line feed is written inside
    quotes with the line feed in it, so the text exported for a ledger of
    this one entry has three lines, not two, even though [str] of a number
    never holds a line end. *)
Lemma export_csv_two_lines_counterexample :
  ¬ (∀ (num_text : number → string) (st : Ledger.state) (csv_path : string),
       (∀ n, single_line (num_text n) = true) →
       length (Ledger.entries st) = 1 →
       ∃ st' rows,
         Ledger.export_csv csv_path st = (st', Ok csv_path)
         ∧ files (Ledger.world st') !! csv_path = Some (CsvDoc rows)
         ∧ line_count (csv_text num_text rows) = 2).
Proof.
  intros H.
  destruct (H (λ _, "40.0")
              (Ledger.mk [Entry.mk "e1" "Lunch" 40 "food" "expense"
                                   ("rice" +:+ String LF "soup") "2024-01-01"]
                         (mkWorld ∅ (λ _, "") 0 "2026-11-03" []))
              "export.csv" (λ _, eq_refl) eq_refl)
    as (st' & rows & Hexport & Hfile & Hlines).
  vm_compute in Hexport. injection Hexport as <-.
  vm_compute in Hfile. injection Hfile as <-.
  vm_compute in Hlines. discriminate Hlines.
Qed.

(** C9, amended: [export_csv path] returns [path] and leaves the collection
    untouched; the file at [path] then holds the header followed by one
    record per entry, the cells in the column order
    [id,date,title,category,kind,amount,note] and the records in the order
    of [list_all].  The text of the file starts with the line
    [id,date,title,category,kind,amount,note]; every record is its seven
    cells, each quoted where the csv writer quotes, joined by commas and
    ended by the line terminator.  When no field of any entry holds a
    carriage return or a line feed, and [str] of a number holds none, the
    text has one line per entry after the header line: exactly two lines
    for a ledger of one entry. *)
Theorem export_csv_lines (num_text : number → string) (st : Ledger.state)
    (csv_path : string) :
  ∃ (st' : Ledger.state) (listed : list Entry.t) (rows : list (list value)),
    Ledger.export_csv csv_path st = (st', Ok csv_path)
    ∧ Ledger.list_all st = (st, Ok listed)
    ∧ files (Ledger.world st') !! csv_path = Some (CsvDoc rows)
    ∧ rows = csv_header :: (csv_row <$> listed)
    ∧ csv_header = VStr <$> ["id"; "date"; "title"; "category"; "kind"; "amount"; "note"]
    ∧ Ledger.entries st' = Ledger.entries st
    ∧ csv_text num_text rows
      = "id,date,title,category,kind,amount,note" +:+ CRLF
        +:+ csv_text num_text (csv_row <$> listed)
    ∧ (∀ e, csv_record num_text (csv_row e)
            = String.concat ","
                (csv_field <$> [Entry.id e; Entry.date e; Entry.title e;
                                Entry.category e; Entry.kind e;
                                num_text (NFloat (Entry.amount e)); Entry.note e])
              +:+ CRLF)
    ∧ ((∀ n, single_line (num_text n) = true) →
       Forall single_line_fields (Ledger.entries st) →
       line_count (csv_text num_text rows) = S (length (Ledger.entries st)))
    ∧ (∀ e, Ledger.entries st = [e] →
         rows = [csv_header; csv_row e]
         ∧ ((∀ n, single_line (num_text n) = true) → single_line_fields e →
            line_count (csv_text num_text rows) = 2)).
Proof.
  assert (∀ es : list Entry.t,
            (∀ n, single_line (num_text n) = true) →
            Forall single_line_fields es →
            line_count (csv_text num_text (csv_header :: (csv_row <$> es)))
            = S (length es)) as Hcount.
  { intros es Hnum Hes. rewrite line_count_csv_text.
    - cbn [length]. by rewrite length_fmap.
    - constructor; [by repeat constructor|].
      rewrite Forall_fmap. eapply Forall_impl; [exact Hes|].
      intros e He. by apply single_line_csv_row. }
  destruct st as [es [fs u n t tr]].
  destruct (export_rows csv_path (sorted Ledger.date_key true es) [csv_header] es
              fs u n t (tr ++ [EvWrite csv_path])) as [units Hunits].
  eexists _, (sorted Ledger.date_key true es), _.
  split; [|split; [reflexivity|]].
  - unfold Ledger.export_csv, Ledger.writeheader, Ledger.list_all,
      write_file, append_row.
    run_se. simpl. rewrite lookup_insert_eq, insert_insert_eq.
    simpl. unfold csv_header in Hunits at 1. simpl in Hunits.
    rewrite Hunits. reflexivity.
  - cbn [Ledger.world Ledger.entries files].
    split; [by rewrite lookup_insert_eq|]. split; [reflexivity|].
    split; [reflexivity|]. split; [reflexivity|]. split; [reflexivity|].
    split; [intros e; unfold csv_record; cbv zeta; by case_bool_decide|]. split.
    + intros Hnum Hes. rewrite Hcount; [|done|].
      * by rewrite (Permutation_length (sorted_perm Ledger.date_key true es)).
      * by rewrite (sorted_perm Ledger.date_key true es).
    + intros e [= ->]. split; [reflexivity|].
      intros Hnum He. by apply (Hcount [e]); [|constructor].
Qed.

Lemma export_csv_lines_witness :
  let st := Ledger.mk [Entry.mk "e1" "Lunch" 40 "food" "expense" "" "2024-01-01"]
                      (mkWorld ∅ (λ _, "") 0 "2026-11-03" []) in
  ∃ st' rows,
    Ledger.export_csv "export.csv" st = (st', Ok "export.csv")
    ∧ files (Ledger.world st') !! "export.csv" = Some (CsvDoc rows)
    ∧ csv_text (λ _, "40.0") rows
      = "id,date,title,category,kind,amount,note" +:+ CRLF
        +:+ "e1,2024-01-01,Lunch,food,expense,40.0," +:+ CRLF
    ∧ line_count (csv_text (λ _, "40.0") rows) = 2.
Proof.
  intros st.
  destruct (export_csv_lines (λ _, "40.0") st "export.csv")
    as (st' & listed & rows & Hexport & _ & Hfile & _ & _ & _ & _ & _ & _ & Hone).
  destruct (Hone _ eq_refl) as [-> Hlines].
  exists st', [csv_header; csv_row (Entry.mk "e1" "Lunch" 40 "food" "expense" ""
                                            "2024-01-01")].
  split; [exact Hexport|]. split; [exact Hfile|]. split; [reflexivity|].
  apply Hlines; [done|]. by repeat split.
Defined.

(** * Further properties of the code *)

(** ** Records and entries *)

Lemma from_dict_well_formed (w : World) (e : Entry.t) :
  well_formed e → Entry.from_dict (Entry.to_dict e) w = (w, Ok e).
Proof.
  intros [Hid Hdate]. destruct e as [i t a c k n d]. simpl in *.
  apply truthy_true in Hid, Hdate.
  unfold Entry.from_dict, Entry.init, py_or. simpl. run_se.
  by rewrite Hid, Hdate.
Qed.

Lemma for_each_from_dict_to_dict (w : World) (es : list Entry.t) :
  Forall well_formed es →
  for_each Entry.from_dict (Entry.to_dict <$> es) w = (w, Ok es).
Proof.
  intros Hes. induction Hes as [|e es He _ IH]; [done|].
  rewrite fmap_cons. eapply for_each_cons_ok; [|exact IH].
  by apply from_dict_well_formed.
Qed.

(** What [Entry.__init__] may do to the world: draw one uuid, nothing
    else. *)
Lemma init_world title amount category kind note date id w w' r :
  Entry.init title amount category kind note date id w = (w', r) →
  files w' = files w ∧ trace w' = trace w ∧ uuids w' = uuids w
  ∧ today w' = today w
  ∧ (uuid_calls w ≤ uuid_calls w' ≤ S (uuid_calls w))%nat.
Proof.
  unfold Entry.init, py_or, uuid4, today_isoformat. run_se.
  destruct id as [i|]; [destruct (truthy i)|];
    (destruct (py_float amount); [|intros [= <- _]; simpl; repeat split; lia]);
    (destruct date as [d|]; [destruct (truthy d)|]);
    intros [= <- _]; simpl; repeat split; lia.
Qed.

Lemma for_each_from_dict_world (records : list EntryDict) (w w' : World) r :
  for_each Entry.from_dict records w = (w', r) →
  files w' = files w ∧ trace w' = trace w ∧ uuids w' = uuids w
  ∧ today w' = today w
  ∧ (uuid_calls w ≤ uuid_calls w' ≤ uuid_calls w + length records)%nat.
Proof.
  revert w w' r. induction records as [|d records IH]; intros w w' r; simpl; run_se.
  - intros [= <- _]. repeat split; lia.
  - destruct (Entry.from_dict d w) as [w1 [e|ex]] eqn:Hd;
      apply init_world in Hd as (Hf & Ht & Hu & Hd & Hn).
    + destruct (for_each Entry.from_dict records w1) as [w2 [es|ex]] eqn:Hrs;
        apply IH in Hrs as (Hf' & Ht' & Hu' & Hd' & Hn');
        intros [= <- _]; repeat split; try congruence; lia.
    + intros [= <- _]. repeat split; try done; lia.
Qed.

(** X1: a record that has all seven keys, a non-empty [id] and [date] and
    a float amount is read by [from_dict] into an entry whose [to_dict] is
    that same record; neither [uuid4] nor the clock is used. *)
Theorem to_dict_from_dict (w : World) (d : EntryDict) :
  complete d →
  ∃ e, Entry.from_dict d w = (w, Ok e) ∧ Entry.to_dict e = d ∧ well_formed e.
Proof.
  destruct d as [i t a c k n dt]. unfold complete. simpl.
  intros ((i' & -> & Hi) & [t' ->] & (a' & ->) & [c' ->] & [k' ->] & [n' ->]
          & (dt' & -> & Hdt)).
  simpl in *. exists (Entry.mk i' t' a' c' k' n' dt').
  split; [|by split].
  apply (from_dict_well_formed w (Entry.mk i' t' a' c' k' n' dt')). by split.
Qed.

Lemma to_dict_from_dict_witness :
  ∃ e, Entry.from_dict
         (mkDict (Some "e1") (Some "Lunch") (Some (NFloat 40)) (Some "food")
                 (Some "expense") (Some "") (Some "2024-01-01"))
         (mkWorld ∅ (λ _, "") 0 "2026-11-03" []) = (mkWorld ∅ (λ _, "") 0 "2026-11-03" [], Ok e)
       ∧ Entry.to_dict e
         = mkDict (Some "e1") (Some "Lunch") (Some (NFloat 40)) (Some "food")
                  (Some "expense") (Some "") (Some "2024-01-01")
       ∧ well_formed e.
Proof.
  apply (to_dict_from_dict (mkWorld ∅ (λ _, "") 0 "2026-11-03" [])
           (mkDict (Some "e1") (Some "Lunch") (Some (NFloat 40)) (Some "food")
                   (Some "expense") (Some "") (Some "2024-01-01"))).
  unfold complete. simpl. repeat split; eauto; eexists; split; eauto; discriminate.
Defined.

(** X2: whatever record [from_dict] was given, the entry it returns goes
    through [to_dict] and [from_dict] unchanged from then on, provided
    [uuid4] and the clock never return an empty string: the defaults are
    applied once. *)
Theorem from_dict_result_is_stable (w w' w2 : World) (d : EntryDict) (e : Entry.t) :
  (∀ n, uuids w n ≠ "") → today w ≠ "" →
  Entry.from_dict d w = (w', Ok e) →
  Entry.from_dict (Entry.to_dict e) w2 = (w2, Ok e).
Proof.
  intros Huuid Htoday Hd. apply from_dict_well_formed.
  unfold Entry.from_dict in Hd.
  by eapply init_id_date_nonempty.
Qed.

Lemma from_dict_result_is_stable_witness :
  Entry.from_dict
    (Entry.to_dict (Entry.mk "u" "" 0 "" "expense" "" "2026-11-03"))
    (mkWorld ∅ (λ _, "") 7 "2027-01-01" [])
  = (mkWorld ∅ (λ _, "") 7 "2027-01-01" [],
     Ok (Entry.mk "u" "" 0 "" "expense" "" "2026-11-03")).
Proof.
  apply (from_dict_result_is_stable
           (mkWorld ∅ (λ _, "u") 0 "2026-11-03" [])
           (mkWorld ∅ (λ _, "u") 1 "2026-11-03" [])
           (mkWorld ∅ (λ _, "") 7 "2027-01-01" [])
           (mkDict None None None None None None None)).
  - intros n. simpl. discriminate.
  - simpl. discriminate.
  - vm_compute. reflexivity.
Defined.

(** ** Saving and loading *)

Lemma load_json (st : Ledger.state) (records : list EntryDict) (w' : World)
    (es : list Entry.t) :
  files (Ledger.world st) !! DATA_FILE = Some (JsonDoc records) →
  for_each Entry.from_dict records (Ledger.world st) = (w', Ok es) →
  Ledger.load st = (Ledger.mk es w', Ok tt).
Proof.
  intros Hf Hrs. unfold Ledger.load. run_se.
  rewrite path_exists_eq. unfold read_json. rewrite Hf.
  simpl. rewrite Hf. simpl. by rewrite Hrs.
Qed.

(** X3: when every entry has a non-empty [id] and [date], [load] right
    after [save] changes nothing at all: the collection read back is the
    collection saved, no uuid is drawn, nothing is printed. *)
Theorem load_after_save (st : Ledger.state) :
  Forall well_formed (Ledger.entries st) →
  Ledger.load (Ledger.save st).1 = ((Ledger.save st).1, Ok tt).
Proof.
  intros Hes. rewrite save_eq. cbn [fst].
  apply (load_json _ (Entry.to_dict <$> Ledger.entries st)).
  - cbn [Ledger.world files]. apply lookup_insert_eq.
  - by apply for_each_from_dict_to_dict.
Qed.

Lemma load_after_save_witness :
  let st := Ledger.mk [Entry.mk "e1" "Lunch" 40 "food" "expense" "" "2024-01-01"]
                      (mkWorld ∅ (λ _, "") 0 "2026-11-03" []) in
  Ledger.load (Ledger.save st).1 = ((Ledger.save st).1, Ok tt).
Proof.
  intros st. apply (load_after_save st).
  repeat constructor; simpl; discriminate.
Defined.

(** X4: [load] never writes: every file is what it was.  Besides setting
    the collection it prints at most one exception and draws at most one
    uuid per record of the data file. *)
Theorem load_writes_nothing (st : Ledger.state) :
  let w := Ledger.world st in
  let w' := Ledger.world (Ledger.load st).1 in
  files w' = files w
  ∧ (trace w' = trace w ∨ ∃ ex, trace w' = trace w ++ [EvPrint ex])
  ∧ (uuid_calls w ≤ uuid_calls w' ≤ uuid_calls w + length (Ledger.persisted st))%nat.
Proof.
  cbv zeta. unfold Ledger.load, Ledger.persisted. run_se.
  cbn [Ledger.world Ledger.entries].
  rewrite path_exists_eq. unfold read_json, print. run_se.
  destruct (files (Ledger.world st) !! DATA_FILE) as [[records|rows|ex]|] eqn:Hf;
    simpl; rewrite ?Hf; simpl.
  - destruct (for_each Entry.from_dict records (Ledger.world st))
      as [w' [es|ex]] eqn:Hrs;
      apply for_each_from_dict_world in Hrs as (Hfs & Htr & _ & _ & Hn); simpl.
    + split; [done|]. split; [by left|]. lia.
    + split; [done|]. split; [|lia]. right. exists ex. by rewrite Htr.
  - split; [done|]. split; [|lia]. right. by eexists.
  - split; [done|]. split; [|lia]. right. by eexists.
  - split; [done|]. split; [by left|]. lia.
Qed.

(** ** Adding and deleting *)

Lemma add_eq (entry : Entry.t) (st : Ledger.state) :
  Ledger.add entry st
  = ((Ledger.save (Ledger.mk (Ledger.entries st ++ [entry]) (Ledger.world st))).1,
     Ok tt).
Proof. reflexivity. Qed.

Lemma in_sync_written (es : list Entry.t) (fs : gmap string file)
    (u : nat → string) (n : nat) (t : string) (tr : list event) :
  Ledger.in_sync
    (Ledger.mk es
       (mkWorld (<[DATA_FILE := JsonDoc (Entry.to_dict <$> es)]> fs) u n t tr)).
Proof.
  unfold Ledger.in_sync, Ledger.persisted. simpl. by rewrite lookup_insert_eq.
Qed.

Lemma delete_no_match (entry_id : string) (st : Ledger.state) :
  Forall (λ e, Entry.id e ≠ entry_id) (Ledger.entries st) →
  Ledger.delete entry_id st = (st, Ok false).
Proof.
  intros Hes. rewrite delete_eq. cbv zeta.
  rewrite filter_keeps_unknown by done.
  rewrite Nat.ltb_irrefl. by destruct st.
Qed.

Lemma filter_drops_known (entry_id : string) (es : list Entry.t) :
  Exists (λ e, Entry.id e = entry_id) es →
  length (List.filter (λ e, negb (Entry.id e =? entry_id)) es) < length es.
Proof.
  intros Hes. induction Hes as [e es He|e es _ IH]; simpl.
  - apply String.eqb_eq in He. rewrite He. simpl.
    pose proof (List.filter_length_le
                  (λ e, negb (Entry.id e =? entry_id)) es). lia.
  - destruct (negb (Entry.id e =? entry_id)); simpl; lia.
Qed.

Lemma filter_others_unknown (entry_id : string) (es : list Entry.t) :
  Forall (λ e, Entry.id e ≠ entry_id)
         (List.filter (λ e, negb (Entry.id e =? entry_id)) es).
Proof.
  apply Forall_forall. intros e He.
  apply list_elem_of_In, filter_In in He as [_ He].
  by apply negb_true_iff, String.eqb_neq in He.
Qed.

(** X5: adding an entry whose id no entry has yet and then deleting that
    id gives back the collection as it was; the delete returns [True] and
    the data file holds the records of that collection. *)
Theorem add_then_delete (st : Ledger.state) (entry : Entry.t) :
  Forall (λ e, Entry.id e ≠ Entry.id entry) (Ledger.entries st) →
  ∃ st', (Ledger.add entry;; Ledger.delete (Entry.id entry)) st = (st', Ok true)
         ∧ Ledger.entries st' = Ledger.entries st
         ∧ Ledger.in_sync st'.
Proof.
  intros Hes.
  change ((Ledger.add entry;; Ledger.delete (Entry.id entry)) st)
    with (match Ledger.add entry st with
          | (s', Ok _) => Ledger.delete (Entry.id entry) s'
          | (s', Raise ex) => (s', Raise ex)
          end).
  rewrite add_eq, save_eq. cbn [fst Ledger.entries Ledger.world].
  rewrite delete_eq. cbv zeta. cbn [Ledger.entries Ledger.world].
  rewrite List.filter_app, filter_keeps_unknown by done.
  simpl. rewrite String.eqb_refl. simpl. rewrite app_nil_r.
  replace (length (Ledger.entries st) <? length (Ledger.entries st ++ [entry]))%nat
    with true by (symmetry; apply Nat.ltb_lt; rewrite length_app; simpl; lia).
  eexists. split; [reflexivity|]. split; [done|].
  apply in_sync_written.
Qed.

Lemma add_then_delete_witness :
  ∃ st', (Ledger.add (Entry.mk "e2" "Tea" 3 "food" "expense" "" "2024-01-02");;
          Ledger.delete "e2")
           (Ledger.mk [Entry.mk "e1" "Lunch" 40 "food" "expense" "" "2024-01-01"]
                      (mkWorld ∅ (λ _, "") 0 "2026-11-03" []))
         = (st', Ok true)
         ∧ Ledger.entries st'
           = [Entry.mk "e1" "Lunch" 40 "food" "expense" "" "2024-01-01"]
         ∧ Ledger.in_sync st'.
Proof.
  apply (add_then_delete
           (Ledger.mk [Entry.mk "e1" "Lunch" 40 "food" "expense" "" "2024-01-01"]
                      (mkWorld ∅ (λ _, "") 0 "2026-11-03" []))
           (Entry.mk "e2" "Tea" 3 "food" "expense" "" "2024-01-02")).
  repeat constructor. simpl. discriminate.
Defined.

(** X7: a second [delete] of the same id finds nothing: it returns [False]
    and leaves the ledger, the files and the trace of writes as the first
    one left them. *)
Theorem delete_twice (st : Ledger.state) (entry_id : string) :
  Ledger.delete entry_id (Ledger.delete entry_id st).1
  = ((Ledger.delete entry_id st).1, Ok false).
Proof.
  apply delete_no_match. rewrite delete_eq. cbv zeta.
  destruct (length _ <? length _)%nat; simpl; apply filter_others_unknown.
Qed.

(** X8: when some entry has the given id, [delete] returns [True], the
    collection gets shorter, the data file is written once and then holds
    exactly the records of the entries that remain. *)
Theorem delete_known_id (st : Ledger.state) (entry_id : string) :
  Exists (λ e, Entry.id e = entry_id) (Ledger.entries st) →
  ∃ st', Ledger.delete entry_id st = (st', Ok true)
         ∧ length (Ledger.entries st') < length (Ledger.entries st)
         ∧ Ledger.in_sync st'
         ∧ trace (Ledger.world st')
           = trace (Ledger.world st) ++ [EvWrite DATA_FILE].
Proof.
  intros Hes. rewrite delete_eq. cbv zeta.
  pose proof (filter_drops_known entry_id _ Hes) as Hlt.
  pose proof Hlt as Hltb. apply Nat.ltb_lt in Hltb. rewrite Hltb.
  eexists. split; [reflexivity|]. rewrite save_eq. simpl.
  split; [done|]. split; [|done].
  apply in_sync_written.
Qed.

Lemma delete_known_id_witness :
  ∃ st', Ledger.delete "e1"
           (Ledger.mk [Entry.mk "e1" "Lunch" 40 "food" "expense" "" "2024-01-01"]
                      (mkWorld ∅ (λ _, "") 0 "2026-11-03" []))
         = (st', Ok true)
         ∧ length (Ledger.entries st') < 1
         ∧ Ledger.in_sync st'
         ∧ trace (Ledger.world st') = [] ++ [EvWrite DATA_FILE].
Proof.
  apply (delete_known_id
           (Ledger.mk [Entry.mk "e1" "Lunch" 40 "food" "expense" "" "2024-01-01"]
                      (mkWorld ∅ (λ _, "") 0 "2026-11-03" []))
           "e1").
  left. reflexivity.
Defined.

(** ** Updating *)

Lemma update_from_no_match (seen rest : list Entry.t) (entry_id : string)
    (kwargs : list Ledger.kwarg) (st : Ledger.state) :
  Forall (λ e, Entry.id e ≠ entry_id) rest →
  Ledger.update_from seen rest entry_id kwargs st = (st, Ok None).
Proof.
  intros Hrest. revert seen.
  induction Hrest as [|e rest He _ IH]; intros seen; [done|].
  simpl. apply String.eqb_neq in He. rewrite He. apply IH.
Qed.

Lemma update_from_first (seen before after : list Entry.t) (e : Entry.t)
    (entry_id : string) (kwargs : list Ledger.kwarg) (st : Ledger.state) :
  Forall (λ e, Entry.id e ≠ entry_id) before → Entry.id e = entry_id →
  Ledger.update_from seen (before ++ e :: after) entry_id kwargs st
  = let e' := (Ledger.set_fields e kwargs).1 in
    let st' := Ledger.mk (seen ++ before ++ e' :: after) (Ledger.world st) in
    match (Ledger.set_fields e kwargs).2 with
    | Some ex => (st', Raise ex)
    | None => ((Ledger.save st').1, Ok (Some e'))
    end.
Proof.
  intros Hbefore He. revert seen.
  induction Hbefore as [|e0 before He0 _ IH]; intros seen; simpl.
  - apply String.eqb_eq in He. rewrite He.
    destruct (Ledger.set_fields e kwargs) as [e' [ex|]]; reflexivity.
  - apply String.eqb_neq in He0. rewrite He0, IH. cbv zeta.
    by rewrite <- (assoc_L (++)).
Qed.

Lemma float_of_int_raise (z : Z) (ex : exn) :
  float_of_int z = Raise ex → ex = OverflowError.
Proof.
  unfold float_of_int.
  destruct (binary_normalize prec emax z 0 false); congruence.
Qed.

Lemma set_field_raise (e : Entry.t) (kw : Ledger.kwarg) (ex : exn) :
  Ledger.set_field e kw = Raise ex →
  (ex = OverflowError
   ∧ ∃ z, kw = Ledger.kw_amount (Some (NInt z))
          ∧ float_of_int z = Raise OverflowError)
  ∨ kw = Ledger.kw_amount_raises ex.
Proof.
  destruct e as [i t a c k n d].
  destruct kw as [[v|]|[v|]|[[z|f]|]|ex'|[v|]|[v|]|[v|]|[v|]|name]; simpl;
    try done.
  - destruct (float_of_int z) as [f|ex'] eqn:Hz; simpl; [done|].
    intros [= <-]. pose proof (float_of_int_raise _ _ Hz) as ->. left. eauto.
  - intros [= <-]. by right.
Qed.

Lemma set_fields_raise (e : Entry.t) (kwargs : list Ledger.kwarg) (ex : exn) :
  (Ledger.set_fields e kwargs).2 = Some ex →
  (ex = OverflowError
   ∧ ∃ z, Ledger.kw_amount (Some (NInt z)) ∈ kwargs
          ∧ float_of_int z = Raise OverflowError)
  ∨ Ledger.kw_amount_raises ex ∈ kwargs.
Proof.
  revert e. induction kwargs as [|kw kwargs IH]; intros e; simpl; [done|].
  destruct (Ledger.set_field e kw) as [e'|ex'] eqn:He.
  - intros H. destruct (IH _ H) as [(-> & z & Hz & Hov)|Hin].
    + left. split; [done|]. exists z. split; [by right|done].
    + right. by right.
  - simpl. intros [= <-].
    destruct (set_field_raise _ _ _ He) as [(-> & z & -> & Hov)| ->].
    + left. split; [done|]. exists z. split; [by left|done].
    + right. by left.
Qed.

Lemma update_ids_unchanged (st : Ledger.state) (entry_id : string)
    (kwargs : list Ledger.kwarg) :
  (∀ v, Ledger.kw_id (Some v) ∉ kwargs) →
  ids (Ledger.update entry_id kwargs st).1 = ids st.
Proof.
  intros Hno. unfold ids, Ledger.update. run_se.
  destruct (update_from_cases [] (Ledger.entries st) entry_id kwargs st)
    as [[_ ->]|(before & e & after & Hes & _ & _ & Heq)]; [done|].
  cbv zeta in Heq. rewrite Hes at 2.
  pose proof (set_fields_id e kwargs Hno) as Hid.
  destruct (Ledger.set_fields e kwargs) as [e' [ex|]]; rewrite Heq; simpl in *;
    by rewrite !fmap_app, !fmap_cons, Hid.
Qed.

(** X9: when no entry has the given id, [update] returns [None] and the
    ledger, the files and the trace of writes are what they were, whatever
    the keywords. *)
Theorem update_unknown_id (st : Ledger.state) (entry_id : string)
    (kwargs : list Ledger.kwarg) :
  Forall (λ e, Entry.id e ≠ entry_id) (Ledger.entries st) →
  Ledger.update entry_id kwargs st = (st, Ok None).
Proof.
  intros Hes. unfold Ledger.update. run_se. by apply update_from_no_match.
Qed.

Lemma update_unknown_id_witness :
  Ledger.update "no-such-id" [Ledger.kw_title (Some "Dinner")]
    (Ledger.mk [Entry.mk "e1" "Lunch" 40 "food" "expense" "" "2024-01-01"]
               (mkWorld ∅ (λ _, "") 0 "2026-11-03" []))
  = (Ledger.mk [Entry.mk "e1" "Lunch" 40 "food" "expense" "" "2024-01-01"]
               (mkWorld ∅ (λ _, "") 0 "2026-11-03" []),
     Ok None).
Proof.
  apply (update_unknown_id
           (Ledger.mk [Entry.mk "e1" "Lunch" 40 "food" "expense" "" "2024-01-01"]
                      (mkWorld ∅ (λ _, "") 0 "2026-11-03" []))
           "no-such-id" [Ledger.kw_title (Some "Dinner")]).
  repeat constructor. simpl. discriminate.
Defined.

(** X10: [update] changes the first entry that has the given id and no
    other: the entries before it and all the entries after it, even those
    with the same id, stay as they are, also when the call raises. *)
Theorem update_first_match_only (st : Ledger.state) (entry_id : string)
    (kwargs : list Ledger.kwarg) (before after : list Entry.t) (e : Entry.t) :
  Ledger.entries st = before ++ e :: after →
  Forall (λ e, Entry.id e ≠ entry_id) before → Entry.id e = entry_id →
  Ledger.entries (Ledger.update entry_id kwargs st).1
  = before ++ (Ledger.set_fields e kwargs).1 :: after.
Proof.
  intros Hes Hbefore He. unfold Ledger.update. run_se.
  rewrite Hes, (update_from_first [] before after e) by done. cbv zeta.
  by destruct (Ledger.set_fields e kwargs) as [e' [ex|]].
Qed.

Lemma update_first_match_only_witness :
  Ledger.entries
    (Ledger.update "dup" [Ledger.kw_note (Some "paid")]
       (Ledger.mk [Entry.mk "e1" "Lunch" 40 "food" "expense" "" "2024-01-01";
                   Entry.mk "dup" "Tea" 3 "food" "expense" "" "2024-01-02";
                   Entry.mk "dup" "Bus" 2 "travel" "expense" "" "2024-01-03"]
                  (mkWorld ∅ (λ _, "") 0 "2026-11-03" []))).1
  = [Entry.mk "e1" "Lunch" 40 "food" "expense" "" "2024-01-01"]
    ++ (Ledger.set_fields (Entry.mk "dup" "Tea" 3 "food" "expense" "" "2024-01-02")
                          [Ledger.kw_note (Some "paid")]).1
    :: [Entry.mk "dup" "Bus" 2 "travel" "expense" "" "2024-01-03"].
Proof.
  apply (update_first_match_only
           (Ledger.mk [Entry.mk "e1" "Lunch" 40 "food" "expense" "" "2024-01-01";
                       Entry.mk "dup" "Tea" 3 "food" "expense" "" "2024-01-02";
                       Entry.mk "dup" "Bus" 2 "travel" "expense" "" "2024-01-03"]
                      (mkWorld ∅ (λ _, "") 0 "2026-11-03" []))
           "dup" [Ledger.kw_note (Some "paid")]).
  - reflexivity.
  - repeat constructor. simpl. discriminate.
  - reflexivity.
Defined.

(** X11: [update] raises only out of [float] on an amount: either an
    integer amount is beyond the range of a double and the exception is
    [OverflowError], or the amount is a value [float] does not convert and
    the exception is the one [float] raises on it.  A call that raises has
    written no file (the world is what it was) and has kept the length of
    the collection. *)
Theorem update_failure_writes_nothing (st st' : Ledger.state) (entry_id : string)
    (kwargs : list Ledger.kwarg) (ex : exn) :
  Ledger.update entry_id kwargs st = (st', Raise ex) →
  Ledger.world st' = Ledger.world st
  ∧ length (Ledger.entries st') = length (Ledger.entries st)
  ∧ ((ex = OverflowError
      ∧ ∃ z, Ledger.kw_amount (Some (NInt z)) ∈ kwargs
             ∧ float_of_int z = Raise OverflowError)
     ∨ Ledger.kw_amount_raises ex ∈ kwargs).
Proof.
  unfold Ledger.update. run_se.
  destruct (update_from_cases [] (Ledger.entries st) entry_id kwargs st)
    as [[_ ->]|(before & e & after & Hes & _ & _ & Heq)]; [done|].
  cbv zeta in Heq.
  destruct (Ledger.set_fields e kwargs) as [e' [ex'|]] eqn:Hset;
    rewrite Heq; [|done].
  intros [= <- <-].
  split; [done|]. split.
  - simpl. rewrite Hes, !length_app. simpl. done.
  - apply (set_fields_raise e). by rewrite Hset.
Qed.

Lemma update_failure_writes_nothing_witness :
  let st := Ledger.mk [Entry.mk "e1" "Lunch" 40 "food" "expense" "" "2024-01-01"]
                      (mkWorld ∅ (λ _, "") 0 "2026-11-03" []) in
  let kwargs := [Ledger.kw_title (Some "Dinner");
                 Ledger.kw_amount_raises ValueError] in
  Ledger.world (Ledger.update "e1" kwargs st).1 = Ledger.world st
  ∧ length (Ledger.entries (Ledger.update "e1" kwargs st).1)
    = length (Ledger.entries st)
  ∧ ((ValueError = OverflowError
      ∧ ∃ z, Ledger.kw_amount (Some (NInt z)) ∈ kwargs
             ∧ float_of_int z = Raise OverflowError)
     ∨ Ledger.kw_amount_raises ValueError ∈ kwargs).
Proof.
  intros st kwargs.
  apply (update_failure_writes_nothing st (Ledger.update "e1" kwargs st).1
           "e1" kwargs ValueError).
  vm_compute. reflexivity.
Defined.

(** ** Ids stay apart *)

Lemma then_tt_state {A} (m : Ledger.L A) (st : Ledger.state) :
  ((m;; mret tt) st).1 = (m st).1.
Proof. run_se. by destruct (m st) as [st' [a|ex]]. Qed.

Lemma NoDup_ids_filter (f : Entry.t → bool) (es : list Entry.t) :
  NoDup (Entry.id <$> es) → NoDup (Entry.id <$> List.filter f es).
Proof.
  induction es as [|e es IH]; [done|]. simpl. rewrite NoDup_cons.
  intros [Hnotin Hes]. destruct (f e); [|by apply IH].
  rewrite fmap_cons. apply NoDup_cons. split; [|by apply IH].
  intros Hin. apply Hnotin.
  apply list_elem_of_fmap in Hin as (e' & -> & He').
  apply list_elem_of_fmap. exists e'. split; [done|].
  apply list_elem_of_In. apply list_elem_of_In, filter_In in He'. tauto.
Qed.

Lemma delete_entries (entry_id : string) (st : Ledger.state) :
  Ledger.entries (Ledger.delete entry_id st).1
  = List.filter (λ e, negb (Entry.id e =? entry_id)) (Ledger.entries st).
Proof.
  rewrite delete_eq. cbv zeta. by destruct (length _ <? length _)%nat.
Qed.

(** X6: the ids of the collection stay pairwise distinct under every
    mutating call that does not itself bring in a clash: an [add] of an
    entry whose id is not yet there, any [delete], and any [update] whose
    keywords carry no value for [id].  ([add] itself never checks.) *)
Theorem unique_ids_preserved (st : Ledger.state) (c : Ledger.call) :
  NoDup (ids st) →
  match c with
  | Ledger.Add entry => Entry.id entry ∉ ids st
  | Ledger.Delete _ => True
  | Ledger.Update _ kwargs => ∀ v, Ledger.kw_id (Some v) ∉ kwargs
  end →
  NoDup (ids (Ledger.perform c st).1).
Proof.
  intros Hnodup Hc.
  destruct c as [entry|entry_id|entry_id kwargs]; cbn [Ledger.perform].
  - rewrite add_eq, save_eq. unfold ids in *. simpl.
    rewrite fmap_app. apply NoDup_app. split; [done|]. split.
    + intros i Hi Hi'. apply list_elem_of_singleton in Hi'. by subst.
    + apply NoDup_singleton.
  - rewrite then_tt_state. unfold ids in *. rewrite delete_entries.
    by apply NoDup_ids_filter.
  - rewrite then_tt_state. by rewrite update_ids_unchanged.
Qed.

Lemma unique_ids_preserved_witness :
  NoDup (ids (Ledger.perform
                (Ledger.Add (Entry.mk "e2" "Tea" 3 "food" "expense" "" "2024-01-02"))
                (Ledger.mk [Entry.mk "e1" "Lunch" 40 "food" "expense" "" "2024-01-01"]
                           (mkWorld ∅ (λ _, "") 0 "2026-11-03" []))).1).
Proof.
  apply (unique_ids_preserved
           (Ledger.mk [Entry.mk "e1" "Lunch" 40 "food" "expense" "" "2024-01-01"]
                      (mkWorld ∅ (λ _, "") 0 "2026-11-03" []))
           (Ledger.Add (Entry.mk "e2" "Tea" 3 "food" "expense" "" "2024-01-02"))).
  - vm_compute. apply NoDup_singleton.
  - vm_compute. intros H. apply list_elem_of_singleton in H. discriminate H.
Defined.

(** ** Searching *)

Lemma ascii_lower_app (a b : string) :
  ascii_lower (a +:+ b) = ascii_lower a +:+ ascii_lower b.
Proof. induction a as [|c a IH]; [done|]. simpl. by rewrite IH. Qed.

Lemma is_substring_ascii_lower (kw s : string) :
  is_substring kw s → is_substring (ascii_lower kw) (ascii_lower s).
Proof.
  intros (before & after & ->). exists (ascii_lower before), (ascii_lower after).
  by rewrite !ascii_lower_app.
Qed.

Lemma is_ascii_app (a b : string) :
  is_ascii (a +:+ b) = is_ascii a && is_ascii b.
Proof.
  induction a as [|c a IH]; [done|].
  change (is_ascii (String c (a +:+ b)) = is_ascii (String c a) && is_ascii b).
  simpl. by rewrite IH, andb_assoc.
Qed.

Lemma is_substring_ascii (kw s : string) :
  is_substring kw s → is_ascii s = true → is_ascii kw = true.
Proof.
  intros (before & after & ->). rewrite !is_ascii_app, !andb_true_iff. tauto.
Qed.

Lemma is_substring_trans (a b c : string) :
  is_substring a b → is_substring b c → is_substring a c.
Proof.
  intros (b1 & b2 & ->) (c1 & c2 & ->).
  exists (c1 +:+ b1), (b2 +:+ c2). by rewrite !string_app_assoc.
Qed.

Lemma search_eq (lower : string → string) (keyword : string) (st : Ledger.state) :
  Ledger.search lower keyword st
  = (st, Ok (filter (mentions lower keyword) (Ledger.entries st))).
Proof.
  unfold Ledger.search. run_se. do 2 f_equal.
  apply filter_bool_decide, search_test_mentions.
Qed.

Lemma filter_sublist_impl {A} (P Q : A → Prop) `{∀ x, Decision (P x)}
    `{∀ x, Decision (Q x)} (l : list A) :
  Forall (λ x, P x → Q x) l → filter P l `sublist_of` filter Q l.
Proof.
  intros HPQ. induction HPQ as [|x l Hx _ IH]; [done|].
  rewrite !filter_cons. destruct (decide (P x)) as [HP|HP].
  - rewrite decide_True by auto. by apply sublist_skip.
  - destruct (decide (Q x)); [by apply sublist_cons|done].
Qed.

(** X12: on ASCII text, where [str.lower] only turns [A]-[Z] into [a]-[z],
    [search] does not look at the case of letters: for an ASCII keyword it
    finds every entry one of whose title, category or note is ASCII text
    and contains, letter for letter, some spelling of the keyword that
    differs from it at most in the case of its letters. *)
Theorem search_finds_any_case (lower : string → string) (st : Ledger.state)
    (keyword spelling : string) (e : Entry.t) :
  (∀ s, is_ascii s = true → lower s = ascii_lower s) →
  e ∈ Ledger.entries st →
  is_ascii keyword = true →
  ascii_lower spelling = ascii_lower keyword →
  (is_ascii (Entry.title e) = true ∧ is_substring spelling (Entry.title e))
  ∨ (is_ascii (Entry.category e) = true ∧ is_substring spelling (Entry.category e))
  ∨ (is_ascii (Entry.note e) = true ∧ is_substring spelling (Entry.note e)) →
  ∃ found, Ledger.search lower keyword st = (st, Ok found) ∧ e ∈ found.
Proof.
  intros Hlower He Hkw Hcase Hin. rewrite search_eq. eexists. split; [done|].
  apply list_elem_of_filter. split; [|done].
  unfold mentions. rewrite (Hlower keyword Hkw), <- Hcase.
  destruct Hin as [[Ha H]|[[Ha H]|[Ha H]]].
  - left. rewrite (Hlower _ Ha). by apply is_substring_ascii_lower.
  - right. left. rewrite (Hlower _ Ha). by apply is_substring_ascii_lower.
  - right. right. rewrite (Hlower _ Ha). by apply is_substring_ascii_lower.
Qed.

Lemma search_finds_any_case_witness :
  ∃ found,
    Ledger.search ascii_lower "LUNCH"
      (Ledger.mk [Entry.mk "e1" "Team lunch" 40 "food" "expense" "" "2024-01-01"]
                 (mkWorld ∅ (λ _, "") 0 "2026-11-03" []))
    = (Ledger.mk [Entry.mk "e1" "Team lunch" 40 "food" "expense" "" "2024-01-01"]
                 (mkWorld ∅ (λ _, "") 0 "2026-11-03" []), Ok found)
    ∧ Entry.mk "e1" "Team lunch" 40 "food" "expense" "" "2024-01-01" ∈ found.
Proof.
  apply (search_finds_any_case ascii_lower
           (Ledger.mk [Entry.mk "e1" "Team lunch" 40 "food" "expense" "" "2024-01-01"]
                      (mkWorld ∅ (λ _, "") 0 "2026-11-03" []))
           "LUNCH" "lunch"
           (Entry.mk "e1" "Team lunch" 40 "food" "expense" "" "2024-01-01")).
  - reflexivity.
  - simpl. left.
  - reflexivity.
  - reflexivity.
  - left. split; [reflexivity|]. exists "Team ", "". reflexivity.
Defined.

(** X13: on ASCII text a longer keyword narrows the search: when every
    title, category and note of the collection and the keyword [long] are
    ASCII text and [short] occurs in [long], every entry found for [long]
    is found for [short], in the same order. *)
Theorem search_narrows (lower : string → string) (st : Ledger.state)
    (short long : string) :
  (∀ s, is_ascii s = true → lower s = ascii_lower s) →
  Forall ascii_fields (Ledger.entries st) →
  is_ascii long = true →
  is_substring short long →
  ∃ found_short found_long,
    Ledger.search lower short st = (st, Ok found_short)
    ∧ Ledger.search lower long st = (st, Ok found_long)
    ∧ found_long `sublist_of` found_short.
Proof.
  intros Hlower Hes Hlong Hsub. rewrite !search_eq. eexists _, _.
  split; [done|]. split; [done|].
  apply filter_sublist_impl. eapply Forall_impl; [exact Hes|].
  intros e (Ht & Hc & Hn). unfold mentions.
  pose proof (is_substring_ascii _ _ Hsub Hlong) as Hshort.
  rewrite (Hlower _ Hlong), (Hlower _ Hshort), (Hlower _ Ht), (Hlower _ Hc),
    (Hlower _ Hn).
  apply is_substring_ascii_lower in Hsub.
  intros [H|[H|H]]; eauto using is_substring_trans.
Qed.

Lemma search_narrows_witness :
  ∃ found_short found_long,
    Ledger.search ascii_lower "lun"
      (Ledger.mk [Entry.mk "e1" "Lunch" 40 "food" "expense" "" "2024-01-01"]
                 (mkWorld ∅ (λ _, "") 0 "2026-11-03" []))
    = (Ledger.mk [Entry.mk "e1" "Lunch" 40 "food" "expense" "" "2024-01-01"]
                 (mkWorld ∅ (λ _, "") 0 "2026-11-03" []), Ok found_short)
    ∧ Ledger.search ascii_lower "lunch"
        (Ledger.mk [Entry.mk "e1" "Lunch" 40 "food" "expense" "" "2024-01-01"]
                   (mkWorld ∅ (λ _, "") 0 "2026-11-03" []))
      = (Ledger.mk [Entry.mk "e1" "Lunch" 40 "food" "expense" "" "2024-01-01"]
                   (mkWorld ∅ (λ _, "") 0 "2026-11-03" []), Ok found_long)
    ∧ found_long `sublist_of` found_short.
Proof.
  apply (search_narrows ascii_lower
           (Ledger.mk [Entry.mk "e1" "Lunch" 40 "food" "expense" "" "2024-01-01"]
                      (mkWorld ∅ (λ _, "") 0 "2026-11-03" []))
           "lun" "lunch").
  - reflexivity.
  - repeat constructor.
  - reflexivity.
  - exists "", "ch". reflexivity.
Defined.

(** ** Listing *)

Lemma string_leb_not_ltb (s1 s2 : string) :
  String.leb s1 s2 = true → String.ltb s2 s1 = false.
Proof.
  unfold String.ltb, String.leb. rewrite (String.compare_antisym s2 s1).
  by destruct (String.compare s1 s2).
Qed.

Lemma sorted_of_sorted {A} (key : A → string) (l : list A) :
  StronglySorted (key_desc key) l → sorted key true l = l.
Proof.
  induction 1 as [|x l Hl IH Hx]; [done|]. simpl. rewrite IH.
  destruct l as [|y l]; [done|]. simpl.
  apply Forall_cons in Hx as [Hxy _]. unfold key_desc in Hxy.
  by rewrite (string_leb_not_ltb _ _ Hxy).
Qed.

Lemma NoDup_fmap_eq {A B} (f : A → B) (l : list A) (x y : A) :
  NoDup (f <$> l) → x ∈ l → y ∈ l → f x = f y → x = y.
Proof.
  induction l as [|a l IH]; [by intros _ ?%elem_of_nil|].
  rewrite fmap_cons, NoDup_cons, !elem_of_cons.
  intros [Ha Hl] [->|Hx] [->|Hy] Hf; [done| | |by apply IH].
  - destruct Ha. rewrite Hf. by apply list_elem_of_fmap_2.
  - destruct Ha. rewrite <- Hf. by apply list_elem_of_fmap_2.
Qed.

(** X14: [list_all] is stable: the entries of one date appear in the
    listing in the order they have in the collection. *)
Theorem list_all_stable (st : Ledger.state) (d : string) :
  ∃ listed, Ledger.list_all st = (st, Ok listed)
            ∧ filter (λ e, Entry.date e = d) listed
              = filter (λ e, Entry.date e = d) (Ledger.entries st).
Proof.
  exists (sorted Ledger.date_key true (Ledger.entries st)).
  split; [apply list_all_eq|].
  etrans; [|etrans; [apply (sorted_stable Ledger.date_key d)|]];
    apply list_filter_iff; intros e; by rewrite date_key_date.
Qed.

(** X15: listing is idempotent: a ledger whose collection is already in
    the order of [list_all] is listed in exactly that order. *)
Theorem list_all_idempotent (st : Ledger.state) :
  ∃ listed, Ledger.list_all st = (st, Ok listed)
            ∧ Ledger.list_all (Ledger.mk listed (Ledger.world st))
              = (Ledger.mk listed (Ledger.world st), Ok listed).
Proof.
  exists (sorted Ledger.date_key true (Ledger.entries st)).
  split; [apply list_all_eq|]. rewrite list_all_eq. simpl.
  do 2 f_equal. apply sorted_of_sorted, sorted_desc.
Qed.

(** X16: when no two entries share a date, the listing does not depend on
    the order of the collection: two ledgers holding the same entries in
    different orders are listed alike. *)
Theorem list_all_order_independent (st st' : Ledger.state) :
  Ledger.entries st ≡ₚ Ledger.entries st' →
  NoDup (Entry.date <$> Ledger.entries st) →
  (Ledger.list_all st).2 = (Ledger.list_all st').2.
Proof.
  intros Hperm Hdates. rewrite !list_all_eq. simpl. f_equal.
  apply (StronglySorted_unique_strong newer_first);
    [|apply list_all_sorted..|by rewrite !sorted_perm].
  intros x1 x2 Hx1 Hx2 H12 H21.
  rewrite sorted_perm in Hx1. rewrite sorted_perm, <- Hperm in Hx2.
  apply (NoDup_fmap_eq Entry.date (Ledger.entries st)); [done..|].
  by apply String.leb_antisym.
Qed.

Lemma list_all_order_independent_witness :
  (Ledger.list_all
     (Ledger.mk [Entry.mk "e1" "Lunch" 40 "food" "expense" "" "2024-01-01";
                 Entry.mk "e2" "Tea" 3 "food" "expense" "" "2024-01-02"]
                (mkWorld ∅ (λ _, "") 0 "2026-11-03" []))).2
  = (Ledger.list_all
       (Ledger.mk [Entry.mk "e2" "Tea" 3 "food" "expense" "" "2024-01-02";
                   Entry.mk "e1" "Lunch" 40 "food" "expense" "" "2024-01-01"]
                  (mkWorld ∅ (λ _, "") 0 "2026-11-03" []))).2.
Proof.
  apply (list_all_order_independent
           (Ledger.mk [Entry.mk "e1" "Lunch" 40 "food" "expense" "" "2024-01-01";
                       Entry.mk "e2" "Tea" 3 "food" "expense" "" "2024-01-02"]
                      (mkWorld ∅ (λ _, "") 0 "2026-11-03" []))
           (Ledger.mk [Entry.mk "e2" "Tea" 3 "food" "expense" "" "2024-01-02";
                       Entry.mk "e1" "Lunch" 40 "food" "expense" "" "2024-01-01"]
                      (mkWorld ∅ (λ _, "") 0 "2026-11-03" []))).
  - simpl. apply Permutation_swap.
  - simpl. apply NoDup_cons. split.
    + intros H. apply list_elem_of_singleton in H. discriminate H.
    + apply NoDup_singleton.
Defined.

(** ** Exporting *)

Lemma export_csv_eq (csv_path : string) (es : list Entry.t) (fs : gmap string file)
    (u : nat → string) (n : nat) (t : string) (tr : list event) :
  Ledger.export_csv csv_path (Ledger.mk es (mkWorld fs u n t tr))
  = (Ledger.mk es
       (mkWorld (<[csv_path := CsvDoc (csv_header
                                         :: (csv_row <$> sorted Ledger.date_key true es))]> fs)
                u n t (tr ++ [EvWrite csv_path])),
     Ok csv_path).
Proof.
  destruct (export_rows csv_path (sorted Ledger.date_key true es) [csv_header] es
              fs u n t (tr ++ [EvWrite csv_path])) as [units Hunits].
  unfold Ledger.export_csv, Ledger.writeheader, Ledger.list_all,
    write_file, append_row.
  run_se. simpl. rewrite lookup_insert_eq, insert_insert_eq.
  simpl. unfold csv_header in Hunits at 1. simpl in Hunits.
  rewrite Hunits. reflexivity.
Qed.

(** X17: [export_csv] touches one path only: every other file is what it
    was, the collection is unchanged, and the one write recorded is the
    write of the CSV file. *)
Theorem export_csv_other_files (st : Ledger.state) (csv_path other : string) :
  other ≠ csv_path →
  let st' := (Ledger.export_csv csv_path st).1 in
  files (Ledger.world st') !! other = files (Ledger.world st) !! other
  ∧ Ledger.entries st' = Ledger.entries st
  ∧ trace (Ledger.world st') = trace (Ledger.world st) ++ [EvWrite csv_path].
Proof.
  intros Hne. destruct st as [es [fs u n t tr]]. rewrite export_csv_eq.
  cbv zeta. simpl. by rewrite lookup_insert_ne.
Qed.

Lemma export_csv_other_files_witness :
  let st := Ledger.mk [Entry.mk "e1" "Lunch" 40 "food" "expense" "" "2024-01-01"]
                      (mkWorld {[ DATA_FILE := JsonDoc [] ]} (λ _, "") 0
                               "2026-11-03" []) in
  let st' := (Ledger.export_csv "export.csv" st).1 in
  files (Ledger.world st') !! DATA_FILE = files (Ledger.world st) !! DATA_FILE
  ∧ Ledger.entries st' = Ledger.entries st
  ∧ trace (Ledger.world st') = trace (Ledger.world st) ++ [EvWrite "export.csv"].
Proof.
  intros st.
  apply (export_csv_other_files st "export.csv" DATA_FILE).
  discriminate.
Defined.

(** X18: [GET /api/export] never touches the data file.  Whatever
    [send_file] answers or raises, the route ends in the state [export_csv]
    left: the collection and the records persisted are what they were, so
    a ledger in step with its file stays so, and the one file written is
    [export.csv].  What the route returns is what [send_file] makes of that
    path. *)
Theorem api_export_keeps_data (send_file : string → World → result response)
    (st : Ledger.state) :
  ∃ st', api_export send_file st = (st', send_file "export.csv" (Ledger.world st'))
         ∧ st' = (Ledger.export_csv "export.csv" st).1
         ∧ Ledger.entries st' = Ledger.entries st
         ∧ Ledger.persisted st' = Ledger.persisted st
         ∧ (Ledger.in_sync st ↔ Ledger.in_sync st')
         ∧ trace (Ledger.world st')
           = trace (Ledger.world st) ++ [EvWrite "export.csv"].
Proof.
  destruct st as [es [fs u n t tr]]. unfold api_export. run_se.
  rewrite export_csv_eq. eexists. split; [reflexivity|].
  split; [done|].
  unfold Ledger.in_sync, Ledger.persisted. simpl.
  rewrite lookup_insert_ne by discriminate. done.
Qed.

(** X19: [export_csv] overwrites: what the path held before does not
    matter, and a second export to the same path right after the first
    leaves every file as the first one left it. *)
Theorem export_csv_twice (st : Ledger.state) (csv_path : string) :
  let st1 := (Ledger.export_csv csv_path st).1 in
  files (Ledger.world (Ledger.export_csv csv_path st1).1) = files (Ledger.world st1)
  ∧ ∀ f, (Ledger.export_csv csv_path
            (Ledger.mk (Ledger.entries st)
               (mkWorld (<[csv_path := f]> (files (Ledger.world st)))
                        (uuids (Ledger.world st)) (uuid_calls (Ledger.world st))
                        (today (Ledger.world st)) (trace (Ledger.world st))))).1
         = st1.
Proof.
  destruct st as [es [fs u n t tr]]. cbv zeta. rewrite !export_csv_eq.
  simpl. rewrite export_csv_eq. simpl. rewrite insert_insert_eq.
  split; [done|]. intros f. rewrite export_csv_eq. simpl.
  by rewrite insert_insert_eq.
Qed.

Lemma load_csv (st : Ledger.state) (rows : list (list value)) :
  files (Ledger.world st) !! DATA_FILE = Some (CsvDoc rows) →
  Ledger.load st
  = (Ledger.mk []
       (mkWorld (files (Ledger.world st)) (uuids (Ledger.world st))
                (uuid_calls (Ledger.world st)) (today (Ledger.world st))
                (trace (Ledger.world st) ++ [EvPrint JSONDecodeError])),
     Ok tt).
Proof.
  intros Hf. unfold Ledger.load. run_se.
  rewrite path_exists_eq. unfold read_json, print. rewrite Hf.
  run_se. simpl. by rewrite Hf.
Qed.

(** X20: exporting to the path of the data file replaces the JSON records
    by CSV rows: the next [load] fails to parse the file, prints the
    [JSONDecodeError] and starts from an empty collection. *)
Theorem export_csv_over_data_file (st : Ledger.state) :
  let st1 := (Ledger.export_csv DATA_FILE st).1 in
  Ledger.persisted st1 = []
  ∧ Ledger.entries (Ledger.load st1).1 = []
  ∧ last (trace (Ledger.world (Ledger.load st1).1)) = Some (EvPrint JSONDecodeError).
Proof.
  destruct st as [es [fs u n t tr]]. cbv zeta. rewrite export_csv_eq.
  cbn [fst]. split.
  - unfold Ledger.persisted. simpl. by rewrite lookup_insert_eq.
  - erewrite load_csv; [|apply lookup_insert_eq]. simpl.
    split; [done|]. apply last_snoc.
Qed.

(** ** The routes *)

Lemma init_without_id title amount category kind note date (w : World) :
  Entry.init title amount category kind note date None w
  = (drew_uuid w,
     a ← py_float amount;
     Ok (Entry.mk (uuids w (uuid_calls w)) title a category kind note
                  (date_or_today date w))).
Proof.
  unfold Entry.init, py_or, uuid4, today_isoformat, date_or_today, drew_uuid.
  run_se. destruct (py_float amount) as [a|ex]; [|done].
  destruct date as [d|]; [destruct (truthy d)|]; reflexivity.
Qed.

Lemma api_create_with_required (i : option string) (title : string) (amount : number)
    (category kind : string) (note date : option string) (st : Ledger.state) :
  api_create (mkDict i (Some title) (Some amount) (Some category) (Some kind)
                     note date) st
  = match py_float amount with
    | Ok a =>
      let e := Entry.mk (uuids (Ledger.world st) (uuid_calls (Ledger.world st)))
                        title a category kind (default "" note)
                        (date_or_today date (Ledger.world st)) in
      ((Ledger.save (Ledger.mk (Ledger.entries st ++ [e])
                               (drew_uuid (Ledger.world st)))).1,
       Ok (mkResponse (JsonEntry (Entry.to_dict e)) 201))
    | Raise ex => (Ledger.mk (Ledger.entries st) (drew_uuid (Ledger.world st)), Raise ex)
    end.
Proof.
  unfold api_create. cbn [List.find required dict_get d_title d_amount
    d_category d_kind d_note d_date String.eqb Ascii.eqb Bool.eqb fmap option_fmap
    option_map negb bool_decide decide_rel is_Some_dec dict_item].
  simpl. run_se. cbn [dict_item Ledger.world Ledger.entries].
  rewrite init_without_id.
  destruct (py_float amount) as [a|ex]; reflexivity.
Qed.

Lemma find_first_match (entry_id : string) (before after : list Entry.t) (e : Entry.t) :
  Forall (λ e, Entry.id e ≠ entry_id) before → Entry.id e = entry_id →
  List.find (λ e, Entry.id e =? entry_id) (before ++ e :: after) = Some e.
Proof.
  intros Hbefore He. induction Hbefore as [|e0 before He0 _ IH]; simpl.
  - apply String.eqb_eq in He. by rewrite He.
  - apply String.eqb_neq in He0. by rewrite He0.
Qed.

Lemma find_no_match (entry_id : string) (es : list Entry.t) :
  Forall (λ e, Entry.id e ≠ entry_id) es →
  List.find (λ e, Entry.id e =? entry_id) es = None.
Proof.
  intros Hes. induction Hes as [|e es He _ IH]; [done|]. simpl.
  apply String.eqb_neq in He. by rewrite He.
Qed.

Lemma not_in_ids (entry_id : string) (es : list Entry.t) :
  entry_id ∉ Entry.id <$> es ↔ Forall (λ e, Entry.id e ≠ entry_id) es.
Proof.
  rewrite Forall_forall. split.
  - intros Hnot e He Heq. apply Hnot. rewrite <- Heq.
    by apply list_elem_of_fmap_2.
  - intros Hall (e & -> & He)%list_elem_of_fmap. by apply (Hall e).
Qed.

(** X21: a [POST] whose body lacks one of [title], [amount], [category],
    [kind] is answered with status 400 and a message naming the first of
    them that is missing, in that order; nothing is created, no uuid is
    drawn, no file is written. *)
Theorem api_create_missing_field (st : Ledger.state) (data : EntryDict) :
  d_title data = None ∨ d_amount data = None
  ∨ d_category data = None ∨ d_kind data = None →
  ∃ present r rest,
    required = present ++ r :: rest
    ∧ Forall (λ r', is_Some (dict_get data r')) present
    ∧ dict_get data r = None
    ∧ api_create data st
      = (st, Ok (mkResponse (JsonError ("Missing field " +:+ r)) 400)).
Proof.
  destruct data as [i [t|] a c k n d]; simpl.
  2: { intros _. exists [], "title", ["amount"; "category"; "kind"].
       by repeat split. }
  destruct a as [a|].
  2: { intros _. exists ["title"], "amount", ["category"; "kind"].
       repeat split; [|done..]. repeat constructor. by eexists. }
  destruct c as [c|].
  2: { intros _. exists ["title"; "amount"], "category", ["kind"].
       repeat split; [|done..]. repeat constructor; by eexists. }
  destruct k as [k|].
  2: { intros _. exists ["title"; "amount"; "category"], "kind", [].
       repeat split; [|done..]. repeat constructor; by eexists. }
  intros [H|[H|[H|H]]]; discriminate H.
Qed.

Lemma api_create_missing_field_witness :
  ∃ present r rest,
    required = present ++ r :: rest
    ∧ Forall (λ r', is_Some (dict_get
                (mkDict None (Some "Lunch") None (Some "food") None None None) r'))
             present
    ∧ dict_get (mkDict None (Some "Lunch") None (Some "food") None None None) r = None
    ∧ api_create (mkDict None (Some "Lunch") None (Some "food") None None None)
        (Ledger.mk [] (mkWorld ∅ (λ _, "") 0 "2026-11-03" []))
      = (Ledger.mk [] (mkWorld ∅ (λ _, "") 0 "2026-11-03" []),
         Ok (mkResponse (JsonError ("Missing field " +:+ r)) 400)).
Proof.
  apply (api_create_missing_field
           (Ledger.mk [] (mkWorld ∅ (λ _, "") 0 "2026-11-03" []))
           (mkDict None (Some "Lunch") None (Some "food") None None None)).
  right. left. reflexivity.
Defined.

(** X22: a [POST] with the four required fields, whose amount converts to
    a float, is answered with status 201 and the record of the new entry.
    Its id is the next uuid, whatever ["id"] the body carries; its date is
    the one given, or the current date when the body has none or an empty
    one; its note defaults to the empty string.  The entry is appended to
    the collection and the data file then holds the whole collection. *)
Theorem api_create_created (st : Ledger.state) (i : option string)
    (title : string) (amount : number) (a : float) (category kind : string)
    (note date : option string) :
  py_float amount = Ok a →
  let w := Ledger.world st in
  let e := Entry.mk (uuids w (uuid_calls w)) title a category kind
                    (default "" note) (date_or_today date w) in
  ∃ st',
    api_create (mkDict i (Some title) (Some amount) (Some category) (Some kind)
                       note date) st
    = (st', Ok (mkResponse (JsonEntry (Entry.to_dict e)) 201))
    ∧ Ledger.entries st' = Ledger.entries st ++ [e]
    ∧ Ledger.in_sync st'
    ∧ uuid_calls (Ledger.world st') = S (uuid_calls w).
Proof.
  intros Ha. cbv zeta. rewrite api_create_with_required, Ha. cbv zeta.
  eexists. split; [reflexivity|]. rewrite save_eq. simpl.
  split; [done|]. split; [|done]. apply in_sync_written.
Qed.

Lemma api_create_created_witness :
  let st := Ledger.mk [] (mkWorld ∅ (λ _, "1b4e28ba") 0 "2026-11-03" []) in
  let w := Ledger.world st in
  let e := Entry.mk (uuids w (uuid_calls w)) "Lunch" 40 "food" "expense"
                    (default "" None) (date_or_today None w) in
  ∃ st',
    api_create (mkDict (Some "mine") (Some "Lunch") (Some (NInt 40)) (Some "food")
                       (Some "expense") None None) st
    = (st', Ok (mkResponse (JsonEntry (Entry.to_dict e)) 201))
    ∧ Ledger.entries st' = Ledger.entries st ++ [e]
    ∧ Ledger.in_sync st'
    ∧ uuid_calls (Ledger.world st') = S (uuid_calls w).
Proof.
  intros st.
  apply (api_create_created st (Some "mine") "Lunch" (NInt 40) 40 "food" "expense"
           None None).
  vm_compute. reflexivity.
Defined.

(** X23: a [POST] with an integer amount beyond the range of a double
    raises [OverflowError] out of the view function; one uuid has been
    drawn, but nothing is appended and no file is written. *)
Theorem api_create_overflow (st : Ledger.state) (i : option string)
    (title : string) (z : Z) (category kind : string) (note date : option string) :
  float_of_int z = Raise OverflowError →
  api_create (mkDict i (Some title) (Some (NInt z)) (Some category) (Some kind)
                     note date) st
  = (Ledger.mk (Ledger.entries st) (drew_uuid (Ledger.world st)),
     Raise OverflowError).
Proof.
  intros Hz. rewrite api_create_with_required. simpl. by rewrite Hz.
Qed.

Lemma api_create_overflow_witness :
  api_create (mkDict None (Some "Moon") (Some (NInt (10 ^ 400))) (Some "misc")
                     (Some "expense") None None)
    (Ledger.mk [] (mkWorld ∅ (λ _, "") 0 "2026-11-03" []))
  = (Ledger.mk [] (drew_uuid (mkWorld ∅ (λ _, "") 0 "2026-11-03" [])),
     Raise OverflowError).
Proof.
  apply (api_create_overflow
           (Ledger.mk [] (mkWorld ∅ (λ _, "") 0 "2026-11-03" []))
           None "Moon" (10 ^ 400) "misc" "expense" None None).
  vm_compute. reflexivity.
Defined.

Lemma api_get_eq (entry_id : string) (st : Ledger.state) :
  api_get entry_id st
  = (st, Ok match List.find (λ e, Entry.id e =? entry_id) (Ledger.entries st) with
            | Some e => mkResponse (JsonEntry (Entry.to_dict e)) 200
            | None => mkResponse (Text "Not found") 404
            end).
Proof.
  unfold api_get. run_se.
  by destruct (List.find _ (Ledger.entries st)).
Qed.

(** X24: [GET /api/entries/<id>] changes nothing and answers 404 exactly
    when no entry has the id; otherwise it answers 200 with the record of
    an entry of the collection, the first one in collection order that has
    this id. *)
Theorem api_get_first_match (st : Ledger.state) (entry_id : string) :
  ∃ resp,
    api_get entry_id st = (st, Ok resp)
    ∧ (resp = mkResponse (Text "Not found") 404 ↔ entry_id ∉ ids st)
    ∧ (∀ before e after,
         Ledger.entries st = before ++ e :: after →
         Forall (λ e, Entry.id e ≠ entry_id) before → Entry.id e = entry_id →
         resp = mkResponse (JsonEntry (Entry.to_dict e)) 200).
Proof.
  rewrite api_get_eq. eexists. split; [reflexivity|]. split.
  - unfold ids. rewrite not_in_ids.
    destruct (List.find _ _) as [e|] eqn:Hfind.
    + split; [done|]. intros Hall.
      apply find_some in Hfind as [He Hid]. apply String.eqb_eq in Hid.
      rewrite Forall_forall in Hall. by destruct (Hall e); [apply list_elem_of_In|].
    + split; [|done]. intros _. apply Forall_forall. intros e He.
      apply list_elem_of_In in He.
      apply (find_none _ _ Hfind), String.eqb_neq in He. done.
  - intros before e after -> Hbefore He. by rewrite find_first_match.
Qed.

(** X25: a new entry can be fetched under the id the [POST] answered
    with: when the next uuid is not yet the id of an entry, [GET] on it
    returns the very record the [POST] returned. *)
Theorem api_create_then_get (st : Ledger.state) (i : option string)
    (title : string) (amount : number) (a : float) (category kind : string)
    (note date : option string) :
  py_float amount = Ok a →
  uuids (Ledger.world st) (uuid_calls (Ledger.world st)) ∉ ids st →
  ∃ st' record,
    api_create (mkDict i (Some title) (Some amount) (Some category) (Some kind)
                       note date) st
    = (st', Ok (mkResponse (JsonEntry record) 201))
    ∧ d_id record = Some (uuids (Ledger.world st) (uuid_calls (Ledger.world st)))
    ∧ api_get (uuids (Ledger.world st) (uuid_calls (Ledger.world st))) st'
      = (st', Ok (mkResponse (JsonEntry record) 200)).
Proof.
  intros Ha Hfresh. rewrite api_create_with_required, Ha. cbv zeta.
  eexists _, _. split; [reflexivity|]. split; [done|].
  rewrite api_get_eq, save_eq. cbn [fst Ledger.entries].
  rewrite find_first_match; [done| |done]. by apply not_in_ids.
Qed.

Lemma api_create_then_get_witness :
  let st := Ledger.mk [Entry.mk "e1" "Lunch" 40 "food" "expense" "" "2024-01-01"]
                      (mkWorld ∅ (λ _, "1b4e28ba") 0 "2026-11-03" []) in
  ∃ st' record,
    api_create (mkDict None (Some "Tea") (Some (NFloat 3)) (Some "food")
                       (Some "expense") None None) st
    = (st', Ok (mkResponse (JsonEntry record) 201))
    ∧ d_id record = Some (uuids (Ledger.world st) (uuid_calls (Ledger.world st)))
    ∧ api_get (uuids (Ledger.world st) (uuid_calls (Ledger.world st))) st'
      = (st', Ok (mkResponse (JsonEntry record) 200)).
Proof.
  intros st.
  apply (api_create_then_get st None "Tea" (NFloat 3) 3 "food" "expense" None None).
  - reflexivity.
  - vm_compute. intros H. apply list_elem_of_singleton in H. discriminate H.
Defined.

(** X26: after a [DELETE] of an id, whether it answered 204 or 404, a
    [GET] of that id answers 404. *)
Theorem api_delete_then_get (st : Ledger.state) (entry_id : string) :
  api_get entry_id (api_delete entry_id st).1
  = ((api_delete entry_id st).1, Ok (mkResponse (Text "Not found") 404)).
Proof.
  assert ((api_delete entry_id st).1 = (Ledger.delete entry_id st).1) as ->.
  { unfold api_delete. run_se.
    destruct (Ledger.delete entry_id st) as [st' [[]|ex]]; reflexivity. }
  rewrite api_get_eq, delete_entries, find_no_match; [done|].
  apply filter_others_unknown.
Qed.

(** ** Updating twice, and reading back *)

Lemma set_alike_refl (e1 e2 : Entry.t) : set_alike e1 e2 e1 e2.
Proof. unfold set_alike. tauto. Qed.

Lemma set_field_alike (e1 e2 : Entry.t) (kw : Ledger.kwarg) :
  match Ledger.set_field e1 kw, Ledger.set_field e2 kw with
  | Ok r1, Ok r2 => set_alike e1 e2 r1 r2
  | Raise ex1, Raise ex2 => ex1 = ex2
  | _, _ => False
  end.
Proof.
  destruct e1 as [i1 t1 a1 c1 k1 n1 d1], e2 as [i2 t2 a2 c2 k2 n2 d2].
  destruct kw as [[v|]|[v|]|[v|]|ex|[v|]|[v|]|[v|]|[v|]|name]; simpl;
    try done; try (unfold set_alike; simpl; tauto).
  destruct (py_float v); simpl; [|done]. unfold set_alike. simpl. tauto.
Qed.

Lemma set_alike_trans (e1 e2 m1 m2 r1 r2 : Entry.t) :
  set_alike e1 e2 m1 m2 → set_alike m1 m2 r1 r2 → set_alike e1 e2 r1 r2.
Proof.
  unfold set_alike.
  intros (H1 & H2 & H3 & H4 & H5 & H6 & H7) (G1 & G2 & G3 & G4 & G5 & G6 & G7).
  repeat split;
    repeat match goal with
           | H : _ ∨ _ |- _ => destruct H as [H|[? ?]]
           end; first [left; congruence | right; split; congruence].
Qed.

Lemma set_fields_alike (e1 e2 : Entry.t) (kwargs : list Ledger.kwarg) :
  (Ledger.set_fields e1 kwargs).2 = (Ledger.set_fields e2 kwargs).2
  ∧ ((Ledger.set_fields e1 kwargs).2 = None →
     set_alike e1 e2 (Ledger.set_fields e1 kwargs).1 (Ledger.set_fields e2 kwargs).1).
Proof.
  revert e1 e2. induction kwargs as [|kw kwargs IH]; intros e1 e2; simpl.
  - split; [done|]. intros _. apply set_alike_refl.
  - pose proof (set_field_alike e1 e2 kw) as Hkw.
    destruct (Ledger.set_field e1 kw) as [m1|ex1],
             (Ledger.set_field e2 kw) as [m2|ex2]; try done.
    + destruct (IH m1 m2) as [Hsame Halike]. split; [done|].
      intros Hok. eapply set_alike_trans; [exact Hkw|by apply Halike].
    + simpl. split; [by subst|done].
Qed.

(** Applying the same keywords a second time changes nothing more. *)
Lemma set_fields_twice (e : Entry.t) (kwargs : list Ledger.kwarg) :
  (Ledger.set_fields e kwargs).2 = None →
  Ledger.set_fields (Ledger.set_fields e kwargs).1 kwargs = Ledger.set_fields e kwargs.
Proof.
  intros Hok.
  destruct (set_fields_alike e (Ledger.set_fields e kwargs).1 kwargs)
    as [Hsame Halike].
  specialize (Halike Hok). rewrite Hok in Hsame.
  destruct (Ledger.set_fields e kwargs) as [r failed] eqn:Hr. simpl in *.
  destruct (Ledger.set_fields r kwargs) as [r2 failed2]. simpl in *.
  subst. f_equal.
  destruct r as [i t a c k n d], r2 as [i2 t2 a2 c2 k2 n2 d2].
  unfold set_alike in Halike. simpl in Halike.
  destruct Halike as (H1 & H2 & H3 & H4 & H5 & H6 & H7).
  f_equal; match goal with
           | H : ?x = ?y ∨ _ |- ?y = ?x => by destruct H as [?|[? ?]]
           end.
Qed.

(** X27: [update] is idempotent when its keywords carry no value for
    [id]: a second call with the same id and keywords returns what the
    first returned and leaves the collection and every file as the first
    left them. *)
Theorem update_idempotent (st st1 : Ledger.state) (entry_id : string)
    (kwargs : list Ledger.kwarg) (r : option Entry.t) :
  (∀ v, Ledger.kw_id (Some v) ∉ kwargs) →
  Ledger.update entry_id kwargs st = (st1, Ok r) →
  ∃ st2, Ledger.update entry_id kwargs st1 = (st2, Ok r)
         ∧ Ledger.entries st2 = Ledger.entries st1
         ∧ files (Ledger.world st2) = files (Ledger.world st1).
Proof.
  intros Hno. unfold Ledger.update at 1. run_se.
  destruct (update_from_cases [] (Ledger.entries st) entry_id kwargs st)
    as [[Hall ->]|(before & e & after & Hes & Hbefore & He & Heq)].
  - intros [= <- <-]. exists st. unfold Ledger.update. run_se.
    by rewrite update_from_no_match.
  - cbv zeta in Heq.
    pose proof (set_fields_id e kwargs Hno) as Hid.
    pose proof (set_fields_twice e kwargs) as Htwice.
    destruct (Ledger.set_fields e kwargs) as [e' [ex|]] eqn:Hset;
      rewrite Heq; [done|].
    cbn [fst snd] in Hid, Htwice. intros [= <- <-].
    unfold Ledger.update. run_se. cbn [Ledger.entries Ledger.world].
    rewrite (update_from_first [] before after e') by congruence.
    rewrite Htwice by done. cbv zeta. cbn [fst snd].
    eexists. split; [reflexivity|]. rewrite save_eq. simpl.
    split; [done|]. by rewrite insert_insert_eq.
Qed.

Lemma update_idempotent_witness :
  let st := Ledger.mk [Entry.mk "e1" "Lunch" 40 "food" "expense" "" "2024-01-01"]
                      (mkWorld ∅ (λ _, "") 0 "2026-11-03" []) in
  let kwargs := [Ledger.kw_title (Some "Dinner"); Ledger.kw_amount (Some (NInt 12))] in
  let st1 := (Ledger.update "e1" kwargs st).1 in
  ∃ st2, Ledger.update "e1" kwargs st1
         = (st2, Ok (Some (Entry.mk "e1" "Dinner" 12 "food" "expense" "" "2024-01-01")))
         ∧ Ledger.entries st2 = Ledger.entries st1
         ∧ files (Ledger.world st2) = files (Ledger.world st1).
Proof.
  intros st kwargs st1.
  apply (update_idempotent st st1 "e1" kwargs
           (Some (Entry.mk "e1" "Dinner" 12 "food" "expense" "" "2024-01-01"))).
  - intros v Hv. vm_compute in Hv.
    repeat (apply elem_of_cons in Hv as [Hv|Hv]; [discriminate Hv|]).
    by apply elem_of_nil in Hv.
  - vm_compute. reflexivity.
Defined.

(** X28: what a [PUT] answered can be read back: when it answers 200 with
    a record, a [GET] of the same id right after it answers 200 with that
    record. *)
Theorem api_update_then_get (st st' : Ledger.state) (entry_id : string)
    (data record : EntryDict) :
  api_update entry_id data st = (st', Ok (mkResponse (JsonEntry record) 200)) →
  api_get entry_id st' = (st', Ok (mkResponse (JsonEntry record) 200)).
Proof.
  unfold api_update, Ledger.update. run_se.
  destruct (update_from_cases [] (Ledger.entries st) entry_id
              (Ledger.api_update_kwargs data) st)
    as [[Hall ->]|(before & e & after & Hes & Hbefore & He & Heq)]; [done|].
  cbv zeta in Heq.
  pose proof (set_fields_id e (Ledger.api_update_kwargs data)
                (api_update_kwargs_no_id data)) as Hid.
  destruct (Ledger.set_fields e (Ledger.api_update_kwargs data)) as [e' [ex|]];
    rewrite Heq; [done|].
  cbn [fst] in Hid. intros [= <- <-].
  rewrite api_get_eq. cbn [fst Ledger.entries].
  rewrite find_first_match; [done..|congruence].
Qed.

Lemma api_update_then_get_witness :
  let st := Ledger.mk [Entry.mk "e1" "Lunch" 40 "food" "expense" "" "2024-01-01"]
                      (mkWorld ∅ (λ _, "") 0 "2026-11-03" []) in
  let data := mkDict None (Some "Dinner") None None None (Some "late") None in
  let record := mkDict (Some "e1") (Some "Dinner") (Some (NFloat 40)) (Some "food")
                       (Some "expense") (Some "late") (Some "2024-01-01") in
  api_get "e1" (api_update "e1" data st).1
  = ((api_update "e1" data st).1, Ok (mkResponse (JsonEntry record) 200)).
Proof.
  intros st data record.
  apply (api_update_then_get st (api_update "e1" data st).1 "e1" data record).
  vm_compute. reflexivity.
Defined.

(** X29: a [PUT] whose body has none of [title], [amount], [category],
    [kind], [note], [date] (an ["id"] in the body is not looked at) on an
    id that exists answers 200 with the record of the unchanged entry; the
    collection is what it was, and the data file is rewritten all the
    same. *)
Theorem api_update_empty_body (st : Ledger.state) (entry_id : string)
    (i : option string) :
  entry_id ∈ ids st →
  ∃ st' e,
    api_update entry_id (mkDict i None None None None None None) st
    = (st', Ok (mkResponse (JsonEntry (Entry.to_dict e)) 200))
    ∧ e ∈ Ledger.entries st ∧ Entry.id e = entry_id
    ∧ Ledger.entries st' = Ledger.entries st
    ∧ Ledger.in_sync st'
    ∧ trace (Ledger.world st') = trace (Ledger.world st) ++ [EvWrite DATA_FILE].
Proof.
  intros Hin. unfold api_update, Ledger.update. run_se.
  destruct (update_from_cases [] (Ledger.entries st) entry_id
              (Ledger.api_update_kwargs (mkDict i None None None None None None)) st)
    as [[Hall _]|(before & e & after & Hes & Hbefore & He & Heq)].
  { by apply not_in_ids in Hall. }
  cbv zeta in Heq.
  assert (Ledger.set_fields e
            (Ledger.api_update_kwargs (mkDict i None None None None None None))
          = (e, None)) as Hset by by destruct e.
  rewrite Hset in Heq. rewrite Heq. rewrite save_eq. simpl.
  eexists _, e. split; [reflexivity|]. simpl. rewrite <- Hes.
  split; [rewrite Hes; apply elem_of_app; right; left|].
  split; [done|]. split; [done|]. split; [|done].
  destruct st as [es w]. simpl. apply in_sync_written.
Qed.

Lemma api_update_empty_body_witness :
  let st := Ledger.mk [Entry.mk "e1" "Lunch" 40 "food" "expense" "" "2024-01-01"]
                      (mkWorld ∅ (λ _, "") 0 "2026-11-03" []) in
  ∃ st' e,
    api_update "e1" (mkDict (Some "other") None None None None None None) st
    = (st', Ok (mkResponse (JsonEntry (Entry.to_dict e)) 200))
    ∧ e ∈ Ledger.entries st ∧ Entry.id e = "e1"
    ∧ Ledger.entries st' = Ledger.entries st
    ∧ Ledger.in_sync st'
    ∧ trace (Ledger.world st') = trace (Ledger.world st) ++ [EvWrite DATA_FILE].
Proof.
  intros st. apply (api_update_empty_body st "e1" (Some "other")).
  vm_compute. left.
Defined.

Lemma total_balance_state (st : Ledger.state) : (Ledger.total_balance st).1 = st.
Proof.
  unfold Ledger.total_balance. run_se.
  destruct (py_sum _) as [income|ex]; [|done].
  destruct (py_sum _) as [expense|ex]; [|done].
  by destruct (num_sub income expense).
Qed.

(** X30: the three reading routes write nothing.  Whether they return or
    raise, and whatever [str.lower] computes, [GET /api/entries] with or
    without a query, [GET /api/entries/<id>] and [GET /api/stats] leave the
    collection, the files, the uuids drawn and the trace as they were; in
    particular [list_all] sorts a copy and not the collection. *)
Theorem get_routes_change_nothing (lower : string → string) (st : Ledger.state)
    (q : option string) (entry_id : string) :
  (api_list lower q st).1 = st
  ∧ (api_get entry_id st).1 = st
  ∧ (api_stats st).1 = st.
Proof.
  split; [|split].
  - unfold api_list. run_se. destruct (truthy (default "" q)).
    + by rewrite search_eq.
    + by rewrite list_all_eq.
  - by rewrite api_get_eq.
  - unfold api_stats. run_se.
    pose proof (total_balance_state st) as Hst.
    by destruct (Ledger.total_balance st) as [st' [totals|ex]].
Qed.
